(** * CudaSort: the host-side scheduler of OpenMM's GPU sort

    A shallow embedding of [platforms/cuda/src/CudaSort.cpp]: the constructor
    (work-group sizing, lines 55-74, and workspace allocation, lines 78-84) and
    [CudaSort::sort] (argument check and kernel sequencing, lines 101-142).

    C++ [unsigned int] and [int] values are integers in [Z] with the 32-bit
    wrap-around written out where the code can reach it.  The members declared
    in [CudaSort.h] ([dataLength] and the three kernel sizes) are
    [unsigned int]; the sizes returned by [SortTrait] and [CudaArray] and the
    two device attributes are [int].  Calls into the CUDA context are recorded
    in the order they are made by a small state-and-exception monad.

    The compilation of the kernel module (lines 38-51), the destructor and the
    device kernels themselves are outside the embedding. *)

From Stdlib Require Import ZArith List Bool Lia String.
Import ListNotations.
Local Open Scope Z_scope.

(** ** Machine integers *)

Module Int32.

Definition modulus : Z := 2 ^ 32.
Definition int_max : Z := 2 ^ 31 - 1.
Definition int_min : Z := - 2 ^ 31.

(** Conversion to [unsigned int]: reduction modulo 2^32. *)
Definition to_uint (x : Z) : Z := x mod modulus.

(** Conversion to [int]: the two's complement value of the low 32 bits. *)
Definition to_int (x : Z) : Z := (x + 2 ^ 31) mod modulus - 2 ^ 31.

Definition is_uint (x : Z) : Prop := 0 <= x < modulus.
Definition is_int (x : Z) : Prop := int_min <= x <= int_max.

End Int32.
Import Int32.

(** ** The collaborators of the scheduler *)

(** [SortTrait]: the two sizes the scheduler reads from the trait, both [int]
    (the strings substituted into the kernel source play no part in sizing). *)
Record SortTrait := {
  getDataSize : Z;
  getKeySize : Z
}.

(** The two device attributes read by the constructor, both [int]. *)
Record Device := {
  maxBlockSize : Z;   (* CU_DEVICE_ATTRIBUTE_MAX_BLOCK_DIM_X *)
  maxSharedMem : Z    (* CU_DEVICE_ATTRIBUTE_MAX_SHARED_MEMORY_PER_BLOCK *)
}.

(** A device array as the scheduler sees it: element count and element size
    (both [int] in [CudaArray]) and the name given at creation. *)
Record CudaArray := {
  getSize : Z;
  getElementSize : Z;
  arrayName : string
}.

(** The six kernels looked up in the compiled module. *)
Inductive Kernel :=
| sortShortList
| computeRange
| assignElementsToBuckets
| computeBucketPositions
| copyDataToBuckets
| sortBuckets.

(** ** The object *)

Record CudaSort := {
  trait : SortTrait;
  dataRange : option CudaArray;
  bucketOfElement : option CudaArray;
  offsetInBucket : option CudaArray;
  bucketOffset : option CudaArray;
  buckets : option CudaArray;
  dataLength : Z;
  rangeKernelSize : Z;
  positionsKernelSize : Z;
  sortKernelSize : Z;
  isShortList : bool
}.

(** Ways in which the C++ code leaves defined behaviour. *)
Inductive Fault :=
| DivisionByZero
| SignedOverflow
| NullDereference
| Nontermination.

(** ** The constructor: work-group sizes (lines 55-74) *)

(** The [for] loop of lines 61-62: starting from [rks], double while
    [rks*2 <= maxBlockSize].  Both sides are [unsigned int], so the product
    wraps and [mbs] is the converted device attribute.  [None] when the fuel
    runs out. *)
Fixpoint rangeLoop (fuel : nat) (rks mbs : Z) : option Z :=
  match fuel with
  | O => None
  | S fuel' =>
      if to_uint (rks * 2) <=? mbs
      then rangeLoop fuel' (to_uint (rks * 2)) mbs
      else Some rks
  end.

(** After 32 doublings the counter has wrapped to 0 and the loop can no longer
    exit, so 33 rounds decide whether it terminates. *)
Definition rangeLoopFuel : nat := 33.

(** The values of the locals and of the size members when line 74 has run.
    [loopRangeKernelSize] is the value of [rangeKernelSize] on leaving the
    loop, before line 66 may overwrite it. *)
Record Sizes := {
  maxLocalBuffer : Z;
  szIsShortList : bool;
  loopRangeKernelSize : Z;
  szRangeKernelSize : Z;
  szPositionsKernelSize : Z;
  szSortKernelSize : Z;
  targetBucketSize : Z;
  numBuckets : Z
}.

Inductive Outcome (A : Type) :=
| Done (a : A)
| Undefined (f : Fault).
Arguments Done {A} a.
Arguments Undefined {A} f.

(** Line 59: [(unsigned int) ((maxSharedMem/trait->getDataSize())/2)], an
    [int] division (truncating) converted to [unsigned int]. *)
Definition computeMaxLocalBuffer (dev : Device) (t : SortTrait) : Outcome Z :=
  if getDataSize t =? 0 then Undefined DivisionByZero
  else if (maxSharedMem dev =? int_min) && (getDataSize t =? -1)
  then Undefined SignedOverflow
  else Done (to_uint (Z.quot (Z.quot (maxSharedMem dev) (getDataSize t)) 2)).

Definition workGroupSizes (dev : Device) (t : SortTrait) (length : Z)
  : Outcome Sizes :=
  match computeMaxLocalBuffer dev t with
  | Undefined f => Undefined f
  | Done maxLocalBuffer =>
    let isShortList := length <=? maxLocalBuffer in
    match rangeLoop rangeLoopFuel 1 (to_uint (maxBlockSize dev)) with
    | None => Undefined Nontermination
    | Some loopSize =>
      let rangeKernelSize := loopSize in
      let positionsKernelSize := rangeKernelSize in
      let sortKernelSize :=
        if isShortList then rangeKernelSize / 2 else rangeKernelSize / 4 in
      let rangeKernelSize :=
        if rangeKernelSize >? length then length else rangeKernelSize in
      let sortKernelSize :=
        if sortKernelSize >? maxLocalBuffer then maxLocalBuffer
        else sortKernelSize in
      let targetBucketSize := sortKernelSize / 2 in
      if targetBucketSize =? 0 then Undefined DivisionByZero
      else
        let numBuckets := length / targetBucketSize in
        let numBuckets := if numBuckets <? 1 then 1 else numBuckets in
        let positionsKernelSize :=
          if positionsKernelSize >? numBuckets then numBuckets
          else positionsKernelSize in
        Done {| maxLocalBuffer := maxLocalBuffer;
                szIsShortList := isShortList;
                loopRangeKernelSize := loopSize;
                szRangeKernelSize := rangeKernelSize;
                szPositionsKernelSize := positionsKernelSize;
                szSortKernelSize := sortKernelSize;
                targetBucketSize := targetBucketSize;
                numBuckets := numBuckets |}
    end
  end.

(** ** The constructor: workspace arrays (lines 78-84) *)

(** [sizeof(uint1)]. *)
Definition sizeof_uint1 : Z := 4.

(** An array created with an [int] element count and element size. *)
Definition newArray (size elementSize : Z) (name : string) : CudaArray :=
  {| getSize := size; getElementSize := elementSize; arrayName := name |}.

(** [CudaArray] takes its element count as an [int]: the [unsigned int]
    counts [length] and [numBuckets] are converted on the way in, and wrap
    to a negative count above [INT_MAX]. *)
Definition CudaSort_new (dev : Device) (t : SortTrait) (length : Z)
  : Outcome CudaSort :=
  match workGroupSizes dev t length with
  | Undefined f => Undefined f
  | Done sz =>
    let alloc (a : CudaArray) : option CudaArray :=
      if szIsShortList sz then None else Some a in
    Done {| trait := t;
            dataRange := alloc (newArray 2 (getKeySize t) "sortDataRange");
            bucketOffset :=
              alloc (newArray (to_int (numBuckets sz)) sizeof_uint1
                       "bucketOffset");
            bucketOfElement :=
              alloc (newArray (to_int length) sizeof_uint1 "bucketOfElement");
            offsetInBucket :=
              alloc (newArray (to_int length) sizeof_uint1 "offsetInBucket");
            buckets :=
              alloc (newArray (to_int length) (getDataSize t) "buckets");
            dataLength := length;
            rangeKernelSize := szRangeKernelSize sz;
            positionsKernelSize := szPositionsKernelSize sz;
            sortKernelSize := szSortKernelSize sz;
            isShortList := szIsShortList sz |}
  end.

(** ** Inputs the constructor is meant for *)

(** The device reports non-negative [int] limits. *)
Definition wf_device (dev : Device) : Prop :=
  0 <= maxBlockSize dev <= int_max /\ 0 <= maxSharedMem dev <= int_max.

(** The record descriptor's invariant: [dataSize >= keySize > 0]. *)
Definition wf_trait (t : SortTrait) : Prop :=
  0 < getKeySize t <= getDataSize t /\ getDataSize t <= int_max.

(** The constructor's inputs in the ranges of their C++ types, with the device
    and trait as above; [length] is an [unsigned int]. *)
Definition wf_inputs (dev : Device) (t : SortTrait) (length : Z) : Prop :=
  wf_device dev /\ wf_trait t /\ is_uint length.

(** ** The CUDA context as the scheduler uses it *)

(** One entry of a kernel's argument array. *)
Inductive Arg :=
| DevicePointer (a : CudaArray)   (* &a.getDevicePointer() *)
| UIntValue (n : Z).              (* &dataLength, &numBuckets *)

(** What the scheduler asks of the context.  [blockSize] and [sharedSize] are
    [None] where the call leaves them to [executeKernel]'s defaults. *)
Inductive DeviceOp :=
| ExecuteKernel (k : Kernel) (args : list Arg) (workUnits : Z)
                (blockSize sharedSize : option Z)
| ClearBuffer (a : CudaArray).

(** Modelled from the spec: the Device Backend ([CudaContext], whose source is
    not part of this unit).  It preserves program order on a single stream, so
    its state holds the operations it has taken, oldest first.  Any request
    may fail at the backend level, whatever happened to earlier ones:
    [accepts n op] tells whether the backend takes [op] when it is the
    request number [n] made of it, and [requests] counts the requests made so
    far, taken or not. *)
Record CudaContext := {
  accepts : nat -> DeviceOp -> bool;
  requests : nat;
  stream : list DeviceOp
}.

(** The backend has taken [op]. *)
Definition issue (op : DeviceOp) (c : CudaContext) : CudaContext :=
  {| accepts := accepts c;
     requests := S (requests c);
     stream := stream c ++ [op] |}.

(** The backend has refused a request. *)
Definition refuse (c : CudaContext) : CudaContext :=
  {| accepts := accepts c;
     requests := S (requests c);
     stream := stream c |}.

(** [OpenMMException], told apart by where it is thrown: line 103 of
    [CudaSort::sort], or inside the context. *)
Inductive Exception :=
| InvalidArgument          (* "CudaSort called with different data size" *)
| DeviceExecutionFailure.

Inductive Result (A : Type) :=
| Returned (a : A)
| Thrown (e : Exception)
| Faulted (f : Fault).
Arguments Returned {A} a.
Arguments Thrown {A} e.
Arguments Faulted {A} f.

(** Computations that use the context and may throw. *)
Definition M (A : Type) : Type := CudaContext -> CudaContext * Result A.

Definition ret {A} (a : A) : M A := fun c => (c, Returned a).
Definition throw {A} (e : Exception) : M A := fun c => (c, Thrown e).
Definition fault {A} (f : Fault) : M A := fun c => (c, Faulted f).
Definition bind {A B} (m : M A) (k : A -> M B) : M B :=
  fun c =>
    match m c with
    | (c', Returned a) => k a c'
    | (c', Thrown e) => (c', Thrown e)
    | (c', Faulted f) => (c', Faulted f)
    end.

Notation "x <- m ;; k" := (bind m (fun x => k))
  (at level 61, m at next level, right associativity).
Notation "m ;; k" := (bind m (fun _ => k))
  (at level 61, right associativity).

Definition perform (op : DeviceOp) : M unit :=
  fun c =>
    if accepts c (requests c) op then (issue op c, Returned tt)
    else (refuse c, Thrown DeviceExecutionFailure).

Definition executeKernel (k : Kernel) (args : list Arg) (workUnits : Z)
    (blockSize sharedSize : option Z) : M unit :=
  perform (ExecuteKernel k args workUnits blockSize sharedSize).

Definition clearBuffer (a : CudaArray) : M unit := perform (ClearBuffer a).

(** Following a member pointer that the constructor may have left [NULL]. *)
Definition deref (p : option CudaArray) : M CudaArray :=
  match p with
  | Some a => ret a
  | None => fault NullDereference
  end.

(** [sizeof(int)]. *)
Definition sizeof_int : Z := 4.

(** ** [CudaSort::sort] (lines 101-142) *)

Definition sort (s : CudaSort) (data : CudaArray) : M unit :=
  if negb (to_uint (getSize data) =? dataLength s)
     || negb (getElementSize data =? getDataSize (trait s))
  then throw InvalidArgument
  else if getSize data =? 0 then ret tt
  else if isShortList s then
    let sortArgs := [DevicePointer data; UIntValue (dataLength s)] in
    executeKernel sortShortList sortArgs
      (sortKernelSize s) (Some (sortKernelSize s))
      (Some (to_uint (dataLength s * to_uint (getDataSize (trait s)))))
  else
    dataRange <- deref (dataRange s) ;;
    let rangeArgs :=
      [DevicePointer data; UIntValue (dataLength s); DevicePointer dataRange] in
    executeKernel computeRange rangeArgs
      (rangeKernelSize s) (Some (rangeKernelSize s))
      (Some (to_uint (rangeKernelSize s * to_uint (getKeySize (trait s))))) ;;
    bucketOffset <- deref (bucketOffset s) ;;
    let numBuckets := to_uint (getSize bucketOffset) in
    clearBuffer bucketOffset ;;
    bucketOfElement <- deref (bucketOfElement s) ;;
    offsetInBucket <- deref (offsetInBucket s) ;;
    let elementsArgs :=
      [DevicePointer data; UIntValue (dataLength s); UIntValue numBuckets;
       DevicePointer dataRange; DevicePointer bucketOffset;
       DevicePointer bucketOfElement; DevicePointer offsetInBucket] in
    executeKernel assignElementsToBuckets elementsArgs (getSize data)
      None None ;;
    let computeArgs := [UIntValue numBuckets; DevicePointer bucketOffset] in
    executeKernel computeBucketPositions computeArgs
      (positionsKernelSize s) (Some (positionsKernelSize s))
      (Some (to_uint (positionsKernelSize s * sizeof_int))) ;;
    buckets <- deref (buckets s) ;;
    let copyArgs :=
      [DevicePointer data; DevicePointer buckets; UIntValue (dataLength s);
       DevicePointer bucketOffset; DevicePointer bucketOfElement;
       DevicePointer offsetInBucket] in
    executeKernel copyDataToBuckets copyArgs (getSize data) None None ;;
    let sortArgs :=
      [DevicePointer data; DevicePointer buckets; UIntValue numBuckets;
       DevicePointer bucketOffset] in
    if sortKernelSize s =? 0 then fault DivisionByZero
    else
      executeKernel sortBuckets sortArgs
        (to_uint
           (to_uint
              (to_uint (to_uint (to_uint (getSize data) + sortKernelSize s) - 1)
               / sortKernelSize s)
            * sortKernelSize s))
        (Some (sortKernelSize s))
        (Some (to_uint (sortKernelSize s * to_uint (getDataSize (trait s))))).

(** A buffer as a caller can hand it to [sort]: an [int] element count and
    element size, neither negative. *)
Definition wf_buffer (data : CudaArray) : Prop :=
  0 <= getSize data <= int_max /\ 0 <= getElementSize data <= int_max.

(** * Notions the statements use *)

(** The largest power of two not above [m], for [m >= 1]. *)
Definition largestPow2 (m : Z) : Z := 2 ^ Z.log2 m.

Definition is_pow2 (n : Z) : Prop := exists k, 0 <= k /\ n = 2 ^ k.

Definition is_pow2b (n : Z) : bool := (0 <? n) && (n =? 2 ^ Z.log2 n).

(** The short-list capacity as the documentation words it:
    floor(maxSharedMem / dataSize / 2). *)
Definition localCapacity (dev : Device) (t : SortTrait) : Z :=
  maxSharedMem dev / getDataSize t / 2.

(** The device and record of the documented scenarios: block size 1024,
    48 KiB of shared memory, 8-byte records with 4-byte keys. *)
Definition scenarioDevice : Device :=
  {| maxBlockSize := 1024; maxSharedMem := 49152 |}.
Definition scenarioTrait : SortTrait := {| getDataSize := 8; getKeySize := 4 |}.

(** [sortKernelSize] as line 68 leaves it, in closed form. *)
Definition clampedSortSize (dev : Device) (t : SortTrait) (length : Z) : Z :=
  let P := largestPow2 (maxBlockSize dev) in
  Z.min (if length <=? localCapacity dev t then P / 2 else P / 4)
        (localCapacity dev t).

(** The three group sizes are powers of two within the device's block size. *)
Definition group_sizes_pow2 (dev : Device) (s : CudaSort) : Prop :=
  (is_pow2 (rangeKernelSize s) /\ rangeKernelSize s <= maxBlockSize dev) /\
  (is_pow2 (positionsKernelSize s) /\
   positionsKernelSize s <= maxBlockSize dev) /\
  (is_pow2 (sortKernelSize s) /\ sortKernelSize s <= maxBlockSize dev).

(** [numBuckets] as documented: max(1, length / (sortGroupSize/2)), computed
    only for the non-short-list path. *)
Definition documentedNumBuckets (shortList : bool) (length sortGroupSize : Z)
  : option Z :=
  if shortList then None
  else Some (Z.max 1 (length / (sortGroupSize / 2))).

(** The buffer passed to [sort] does not match the configured length or the
    record size. *)
Definition mismatched (s : CudaSort) (data : CudaArray) : Prop :=
  getSize data <> dataLength s \/
  getElementSize data <> getDataSize (trait s).

(** The operations of the two paths, with the sizes as the code computes
    them. *)
Definition shortListOps (s : CudaSort) (data : CudaArray) : list DeviceOp :=
  [ExecuteKernel sortShortList [DevicePointer data; UIntValue (dataLength s)]
     (sortKernelSize s) (Some (sortKernelSize s))
     (Some (to_uint (dataLength s * to_uint (getDataSize (trait s)))))].

Definition bucketOps (s : CudaSort) (data dr bo be oi bu : CudaArray)
  : list DeviceOp :=
  let nb := to_uint (getSize bo) in
  [ExecuteKernel computeRange
     [DevicePointer data; UIntValue (dataLength s); DevicePointer dr]
     (rangeKernelSize s) (Some (rangeKernelSize s))
     (Some (to_uint (rangeKernelSize s * to_uint (getKeySize (trait s)))));
   ClearBuffer bo;
   ExecuteKernel assignElementsToBuckets
     [DevicePointer data; UIntValue (dataLength s); UIntValue nb;
      DevicePointer dr; DevicePointer bo; DevicePointer be; DevicePointer oi]
     (getSize data) None None;
   ExecuteKernel computeBucketPositions [UIntValue nb; DevicePointer bo]
     (positionsKernelSize s) (Some (positionsKernelSize s))
     (Some (to_uint (positionsKernelSize s * sizeof_int)));
   ExecuteKernel copyDataToBuckets
     [DevicePointer data; DevicePointer bu; UIntValue (dataLength s);
      DevicePointer bo; DevicePointer be; DevicePointer oi]
     (getSize data) None None;
   ExecuteKernel sortBuckets
     [DevicePointer data; DevicePointer bu; UIntValue nb; DevicePointer bo]
     (to_uint
        (to_uint
           (to_uint (to_uint (to_uint (getSize data) + sortKernelSize s) - 1)
            / sortKernelSize s)
         * sortKernelSize s))
     (Some (sortKernelSize s))
     (Some (to_uint (sortKernelSize s * to_uint (getDataSize (trait s)))))].

(** Nothing but line 103 throws [InvalidArgument]. *)
Definition no_invalid {A} (m : M A) : Prop :=
  forall c, snd (m c) <> Thrown InvalidArgument.

(** A context whose backend accepts every operation and has run none. *)
Definition idleContext : CudaContext :=
  {| accepts := fun _ _ => true; requests := 0; stream := [] |}.

(** Modelled from the spec: the backend's launch-kernel takes a total thread
    count and the threads per group ([executeKernel] itself lives in
    [CudaContext], outside this unit); the groups launched are the total
    divided by the group size, rounded up. *)
Definition groupsLaunched (totalThreads threadsPerGroup : Z) : Z :=
  (totalThreads + threadsPerGroup - 1) / threadsPerGroup.

(** Path A as documented: one launch of the short-list kernel,
    [sortKernelSize] threads in all and per group, and a shared-memory grant
    of length times data size. *)
Definition shortListPath (s : CudaSort) (data : CudaArray) : list DeviceOp :=
  [ExecuteKernel sortShortList [DevicePointer data; UIntValue (dataLength s)]
     (sortKernelSize s) (Some (sortKernelSize s))
     (Some (dataLength s * getDataSize (trait s)))].

(** Path B as documented, for [groups] groups in the last stage: range, clear
    and assign, positions, scatter, per-bucket sort. *)
Definition bucketPath (s : CudaSort) (data dr bo be oi bu : CudaArray)
    (groups : Z) : list DeviceOp :=
  let length := dataLength s in
  let nb := getSize bo in
  [ExecuteKernel computeRange
     [DevicePointer data; UIntValue length; DevicePointer dr]
     (rangeKernelSize s) (Some (rangeKernelSize s))
     (Some (to_uint (rangeKernelSize s * getKeySize (trait s))));
   ClearBuffer bo;
   ExecuteKernel assignElementsToBuckets
     [DevicePointer data; UIntValue length; UIntValue nb;
      DevicePointer dr; DevicePointer bo; DevicePointer be; DevicePointer oi]
     length None None;
   ExecuteKernel computeBucketPositions [UIntValue nb; DevicePointer bo]
     (positionsKernelSize s) (Some (positionsKernelSize s))
     (Some (to_uint (positionsKernelSize s * 4)));
   ExecuteKernel copyDataToBuckets
     [DevicePointer data; DevicePointer bu; UIntValue length;
      DevicePointer bo; DevicePointer be; DevicePointer oi]
     length None None;
   ExecuteKernel sortBuckets
     [DevicePointer data; DevicePointer bu; UIntValue nb; DevicePointer bo]
     (groups * sortKernelSize s) (Some (sortKernelSize s))
     (Some (sortKernelSize s * getDataSize (trait s)))].

(** ** The destructor (lines 87-99) *)

(** What a [delete] expression of the destructor releases. *)
Inductive Deleted :=
| DeletedTrait (t : SortTrait)
| DeletedArray (a : CudaArray).

(** [if (p != NULL) delete p;] *)
Definition deleteIfNotNull (p : option CudaArray) : list Deleted :=
  match p with
  | Some a => [DeletedArray a]
  | None => []
  end.

(** The objects the destructor deletes, in the order it deletes them. *)
Definition CudaSort_delete (s : CudaSort) : list Deleted :=
  DeletedTrait (trait s)
  :: deleteIfNotNull (dataRange s)
  ++ deleteIfNotNull (bucketOfElement s)
  ++ deleteIfNotNull (offsetInBucket s)
  ++ deleteIfNotNull (bucketOffset s)
  ++ deleteIfNotNull (buckets s).

(** ** Notions for whole runs *)

(** Asking the context for a list of operations in turn, stopping at the
    first one the backend rejects. *)
Fixpoint performAll (ops : list DeviceOp) : M unit :=
  match ops with
  | [] => ret tt
  | op :: rest => perform op ;; performAll rest
  end.

(** The backend takes each of [ops] when they are asked for in turn, the
    first as request number [n]. *)
Fixpoint acceptsAll (c : CudaContext) (n : nat) (ops : list DeviceOp) : bool :=
  match ops with
  | [] => true
  | op :: rest => accepts c n op && acceptsAll c (S n) rest
  end.

(** The operations [sort] sets out to ask for once the buffer has passed the
    check of line 102: none for an empty buffer, else those of its path. *)
Definition plannedOps (s : CudaSort) (data : CudaArray) : list DeviceOp :=
  if getSize data =? 0 then []
  else if isShortList s then shortListOps s data
  else
    match dataRange s, bucketOffset s, bucketOfElement s, offsetInBucket s,
          buckets s with
    | Some dr, Some bo, Some be, Some oi, Some bu =>
        bucketOps s data dr bo be oi bu
    | _, _, _, _, _ => []
    end.



(** The threads per group a launch names, if it names any. *)
Definition blockSizeOf (op : DeviceOp) : option Z :=
  match op with
  | ExecuteKernel _ _ _ bs _ => bs
  | ClearBuffer _ => None
  end.


(** * Facts *)

(** ** Tactics *)

(** [lia] after turning divisions by constants into their defining
    inequalities. *)
Ltac div_lia := Z.to_euclidean_division_equations; lia.

(** Instantiate an existential with the object a construction yields, or
    with the context a run of [sort] leaves. *)
Ltac exists_constructed dev t L :=
  let o := eval vm_compute in (CudaSort_new dev t L) in
  match o with Done ?s => exists s end.

Ltac exists_context_after s data c :=
  let r := eval vm_compute in (fst (sort s data c)) in exists r.

Ltac wf_solve :=
  unfold wf_inputs, wf_device, wf_trait, is_uint, is_int, int_max, int_min,
    modulus; simpl; lia.

(** ** Machine integers *)

Lemma to_uint_small x : 0 <= x < modulus -> to_uint x = x.
Proof. intros H. unfold to_uint. now apply Z.mod_small. Qed.

Lemma to_int_small x : int_min <= x <= int_max -> to_int x = x.
Proof.
  unfold int_min, int_max, to_int, modulus. intros H.
  rewrite Z.mod_small by lia. lia.
Qed.

Lemma to_uint_le x : 0 <= x -> to_uint x <= x.
Proof. intros H. unfold to_uint, modulus. apply Z.mod_le; lia. Qed.

(** ** The doubling loop *)

Lemma is_pow2b_spec n : is_pow2b n = true <-> is_pow2 n.
Proof.
  unfold is_pow2b, is_pow2. rewrite andb_true_iff, Z.ltb_lt, Z.eqb_eq. split.
  - intros [_ E]. exists (Z.log2 n). split; [apply Z.log2_nonneg | exact E].
  - intros (k & Hk & ->). split.
    + apply Z.pow_pos_nonneg; lia.
    + now rewrite Z.log2_pow2.
Qed.

Lemma largestPow2_bounds m :
  1 <= m -> largestPow2 m <= m < 2 * largestPow2 m.
Proof.
  intros Hm. unfold largestPow2.
  destruct (Z.log2_spec m) as [Hlo Hhi]; [lia|].
  rewrite Z.pow_succ_r in Hhi by apply Z.log2_nonneg. lia.
Qed.

Lemma largestPow2_is_pow2 m : is_pow2 (largestPow2 m).
Proof. exists (Z.log2 m). split; [apply Z.log2_nonneg | reflexivity]. Qed.

Lemma largestPow2_pos m : 0 < largestPow2 m.
Proof. unfold largestPow2. apply Z.pow_pos_nonneg; [lia | apply Z.log2_nonneg]. Qed.

Lemma rangeLoop_from_pow2 fuel :
  forall k m,
    0 <= k -> 2 ^ k <= m -> m < 2 ^ 31 -> 31 - k < Z.of_nat fuel ->
    rangeLoop fuel (2 ^ k) m = Some (largestPow2 m).
Proof.
  induction fuel as [|fuel IH]; intros k m Hk Hlo Hhi Hfuel;
    assert (Hk31 : k < 31) by (apply (Z.pow_lt_mono_r_iff 2); lia);
    [lia|].
  assert (Hdbl : to_uint (2 ^ k * 2) = 2 ^ (k + 1)).
  { rewrite Z.pow_add_r by lia. change (2 ^ 1) with 2.
    apply to_uint_small. unfold modulus.
    assert (2 ^ k < 2 ^ 31) by (apply Z.pow_lt_mono_r; lia).
    assert (0 < 2 ^ k) by (apply Z.pow_pos_nonneg; lia).
    lia. }
  cbn [rangeLoop]. rewrite Hdbl.
  destruct (Z.leb_spec (2 ^ (k + 1)) m) as [Hle|Hgt].
  - apply IH; lia.
  - unfold largestPow2. do 2 f_equal. symmetry.
    apply Z.log2_unique; [lia|]. unfold Z.succ. lia.
Qed.

Lemma rangeLoop_exit m :
  0 <= m <= int_max ->
  rangeLoop rangeLoopFuel 1 (to_uint m) = Some (largestPow2 m).
Proof.
  unfold int_max. intros Hm.
  rewrite to_uint_small by (unfold modulus; lia).
  destruct (Z.eq_dec m 0) as [->|Hnz]; [reflexivity|].
  change 1 with (2 ^ 0) at 1.
  apply rangeLoop_from_pow2; unfold rangeLoopFuel; simpl; lia.
Qed.

(** Once the counter is 0 the loop condition [0 <= mbs] holds for ever. *)
Lemma rangeLoop_stuck fuel mbs : 0 <= mbs -> rangeLoop fuel 0 mbs = None.
Proof.
  intros Hm. induction fuel as [|fuel IH]; [reflexivity|].
  cbn [rangeLoop]. change (to_uint (0 * 2)) with 0.
  destruct (Z.leb_spec 0 mbs); [exact IH | lia].
Qed.

(** A device attribute that converts to 2^31 or more (a negative [int]) keeps
    the loop running for ever: no amount of fuel lets it exit. *)
Lemma rangeLoop_diverges fuel :
  forall k mbs,
    0 <= k <= 32 -> 2 ^ 31 <= mbs ->
    rangeLoop fuel (to_uint (2 ^ k)) mbs = None.
Proof.
  induction fuel as [|fuel IH]; intros k mbs Hk Hm; [reflexivity|].
  destruct (Z.eq_dec k 32) as [->|Hne].
  - change (to_uint (2 ^ 32)) with 0. apply rangeLoop_stuck. lia.
  - assert (Hlt : 2 ^ k < 2 ^ 32) by (apply Z.pow_lt_mono_r; lia).
    assert (Hpos : 0 < 2 ^ k) by (apply Z.pow_pos_nonneg; lia).
    rewrite (to_uint_small (2 ^ k)) by (unfold modulus; lia).
    cbn [rangeLoop].
    replace (2 ^ k * 2) with (2 ^ (k + 1))
      by (rewrite Z.pow_add_r by lia; reflexivity).
    assert (Hc : to_uint (2 ^ (k + 1)) <= mbs).
    { destruct (Z.eq_dec k 31) as [->|Hne'].
      - change (to_uint (2 ^ (31 + 1))) with 0. lia.
      - assert (2 ^ (k + 1) <= 2 ^ 31) by (apply Z.pow_le_mono_r; lia).
        rewrite to_uint_small by (unfold modulus; lia). lia. }
    apply Z.leb_le in Hc. rewrite Hc. apply IH; lia.
Qed.

(** So [rangeLoopFuel] rounds decide the loop: more fuel changes nothing. *)
Lemma rangeLoop_fuel_enough fuel mbs :
  is_uint mbs -> (rangeLoopFuel <= fuel)%nat ->
  rangeLoop fuel 1 mbs = rangeLoop rangeLoopFuel 1 mbs.
Proof.
  unfold is_uint, modulus, rangeLoopFuel. intros Hm Hf.
  destruct (Z_lt_le_dec mbs (2 ^ 31)) as [Hlo|Hhi].
  - destruct (Z.eq_dec mbs 0) as [->|Hnz].
    + destruct fuel; [lia | reflexivity].
    + change 1 with (2 ^ 0).
      rewrite !rangeLoop_from_pow2; try reflexivity; simpl; lia.
  - change 1 with (to_uint (2 ^ 0)).
    rewrite !rangeLoop_diverges; try reflexivity; lia.
Qed.

(** ** The sizes the constructor derives *)

Lemma localCapacity_bounds dev t :
  wf_device dev -> wf_trait t ->
  0 <= localCapacity dev t /\
  localCapacity dev t * getDataSize t * 2 <= maxSharedMem dev /\
  localCapacity dev t <= int_max.
Proof.
  unfold wf_device, wf_trait, localCapacity, int_max.
  intros (_ & HS) (HK & HD).
  set (S := maxSharedMem dev) in *. set (D := getDataSize t) in *.
  assert (H1 : 0 <= S / D) by (apply Z.div_pos; lia).
  assert (H2 : D * (S / D) <= S) by (apply Z.mul_div_le; lia).
  assert (H3 : 0 <= S / D / 2) by (apply Z.div_pos; lia).
  assert (H4 : 2 * (S / D / 2) <= S / D) by (apply Z.mul_div_le; lia).
  repeat split; nia.
Qed.

Lemma computeMaxLocalBuffer_wf dev t :
  wf_device dev -> wf_trait t ->
  computeMaxLocalBuffer dev t = Done (localCapacity dev t).
Proof.
  intros Hdev Ht. pose proof (localCapacity_bounds dev t Hdev Ht) as HB.
  unfold wf_device, wf_trait, int_max in *. unfold computeMaxLocalBuffer.
  destruct (Z.eqb_spec (getDataSize t) 0) as [E|_]; [lia|].
  destruct (Z.eqb_spec (getDataSize t) (-1)) as [E|_]; [lia|].
  rewrite andb_false_r. f_equal.
  rewrite (Z.quot_div_nonneg (maxSharedMem dev) (getDataSize t)) by lia.
  rewrite Z.quot_div_nonneg; [| apply Z.div_pos; lia | lia].
  apply to_uint_small. unfold modulus. fold (localCapacity dev t). lia.
Qed.

(** What a completed sizing has computed, in closed form. *)
Lemma workGroupSizes_inv dev t length sz :
  wf_inputs dev t length ->
  workGroupSizes dev t length = Done sz ->
  let P := largestPow2 (maxBlockSize dev) in
  maxLocalBuffer sz = localCapacity dev t /\
  szIsShortList sz = (length <=? localCapacity dev t) /\
  loopRangeKernelSize sz = P /\
  szRangeKernelSize sz = Z.min P length /\
  szSortKernelSize sz =
    Z.min (if szIsShortList sz then P / 2 else P / 4) (localCapacity dev t) /\
  targetBucketSize sz = szSortKernelSize sz / 2 /\
  0 < targetBucketSize sz /\
  numBuckets sz = Z.max 1 (length / targetBucketSize sz) /\
  szPositionsKernelSize sz = Z.min P (numBuckets sz).
Proof.
  intros (Hdev & Ht & HL) H. unfold workGroupSizes in H.
  rewrite (computeMaxLocalBuffer_wf dev t Hdev Ht) in H.
  rewrite rangeLoop_exit in H by (destruct Hdev; assumption).
  cbv zeta in H.
  set (P := largestPow2 (maxBlockSize dev)) in *.
  set (mlb := localCapacity dev t) in *.
  set (sks0 := if length <=? mlb then P / 2 else P / 4) in *.
  set (sks := if sks0 >? mlb then mlb else sks0) in *.
  destruct (Z.eqb_spec (sks / 2) 0) as [E|Hnz]; [discriminate|].
  injection H as <-. cbn [maxLocalBuffer szIsShortList loopRangeKernelSize
    szRangeKernelSize szPositionsKernelSize szSortKernelSize targetBucketSize
    numBuckets].
  assert (Hsks : sks = Z.min sks0 mlb).
  { subst sks. rewrite Z.gtb_ltb. destruct (Z.ltb_spec mlb sks0); lia. }
  assert (HP : 0 < P) by apply largestPow2_pos.
  assert (Hmlb : 0 <= mlb)
    by (apply (localCapacity_bounds dev t Hdev Ht)).
  assert (Hsks0 : 0 <= sks0).
  { subst sks0. destruct (length <=? mlb); apply Z.div_pos; lia. }
  assert (Htbs : 0 <= sks / 2) by (apply Z.div_pos; lia).
  repeat split; try reflexivity; try assumption; try lia.
  - rewrite Z.gtb_ltb. destruct (Z.ltb_spec length P); lia.
  - destruct (Z.ltb_spec (length / (sks / 2)) 1); lia.
  - rewrite Z.gtb_ltb.
    destruct (Z.ltb_spec (length / (sks / 2)) 1);
      match goal with |- context [?a <? ?b] => destruct (Z.ltb_spec a b) end;
      lia.
Qed.

Lemma CudaSort_new_inv dev t length s :
  CudaSort_new dev t length = Done s ->
  exists sz,
    workGroupSizes dev t length = Done sz /\
    trait s = t /\ dataLength s = length /\
    isShortList s = szIsShortList sz /\
    rangeKernelSize s = szRangeKernelSize sz /\
    positionsKernelSize s = szPositionsKernelSize sz /\
    sortKernelSize s = szSortKernelSize sz.
Proof.
  unfold CudaSort_new. destruct (workGroupSizes dev t length) as [sz|f];
    [|discriminate].
  intros H. injection H as <-. exists sz. repeat split.
Qed.

(** ** Strategy selection *)

(** C1.  For a construction with array length [L], record size [D] and device
    shared memory [S], [isShortList] is true exactly when
    [L <= floor(S / D / 2)], that is when [2 * D * L <= S]; two constructions
    that agree on [(L, D, S)] select the same [isShortList], whatever their
    block-size limit and key size. *)
Theorem isShortList_iff_capacity :
  forall dev1 dev2 t1 t2 L s1 s2,
    wf_inputs dev1 t1 L -> wf_inputs dev2 t2 L ->
    maxSharedMem dev1 = maxSharedMem dev2 ->
    getDataSize t1 = getDataSize t2 ->
    CudaSort_new dev1 t1 L = Done s1 ->
    CudaSort_new dev2 t2 L = Done s2 ->
    (isShortList s1 = true <-> L <= maxSharedMem dev1 / getDataSize t1 / 2) /\
    (isShortList s1 = true <-> 2 * getDataSize t1 * L <= maxSharedMem dev1) /\
    isShortList s1 = isShortList s2.
Proof.
  intros dev1 dev2 t1 t2 L s1 s2 W1 W2 ES ED C1 C2.
  destruct (CudaSort_new_inv _ _ _ _ C1) as (z1 & Z1 & _ & _ & F1 & _).
  destruct (CudaSort_new_inv _ _ _ _ C2) as (z2 & Z2 & _ & _ & F2 & _).
  destruct (workGroupSizes_inv _ _ _ _ W1 Z1) as (_ & I1 & _).
  destruct (workGroupSizes_inv _ _ _ _ W2 Z2) as (_ & I2 & _).
  rewrite F1, F2, I1, I2. unfold localCapacity. rewrite <- ES, <- ED.
  rewrite Z.leb_le. repeat split; try tauto.
  - intros H. destruct W1 as (Hdev & Ht & _).
    destruct (localCapacity_bounds dev1 t1 Hdev Ht) as (B0 & B1 & _).
    unfold localCapacity in B0, B1. destruct Ht as (HK & HD). nia.
  - intros H. destruct W1 as ((_ & HS) & (HK & HD) & HL).
    rewrite Z.div_div by lia.
    apply Z.div_le_lower_bound; lia.
Qed.

Lemma isShortList_iff_capacity_witness :
  exists s1 s2,
    CudaSort_new scenarioDevice scenarioTrait 2000 = Done s1 /\
    CudaSort_new {| maxBlockSize := 512; maxSharedMem := 49152 |}
                 {| getDataSize := 8; getKeySize := 8 |} 2000 = Done s2 /\
    (isShortList s1 = true <-> 2000 <= 49152 / 8 / 2) /\
    (isShortList s1 = true <-> 2 * 8 * 2000 <= 49152) /\
    isShortList s1 = isShortList s2.
Proof.
  do 2 eexists. split; [reflexivity|]. split; [reflexivity|].
  eapply (isShortList_iff_capacity
            scenarioDevice {| maxBlockSize := 512; maxSharedMem := 49152 |}
            scenarioTrait {| getDataSize := 8; getKeySize := 8 |} 2000);
    try reflexivity; wf_solve.
Defined.

(** ** Powers of two *)

Lemma pow2_div k j : 0 <= j <= k -> 2 ^ k / 2 ^ j = 2 ^ (k - j).
Proof.
  intros H. replace k with ((k - j) + j) at 1 by lia.
  rewrite Z.pow_add_r by lia. apply Z.div_mul.
  apply Z.pow_nonzero; lia.
Qed.

Lemma largestPow2_le m : 1 <= m -> largestPow2 m <= m.
Proof. intros H. now apply largestPow2_bounds. Qed.

(** A power of two that is at least [2 ^ j] stays one when divided by it. *)
Lemma largestPow2_div m j :
  0 <= j -> 2 ^ j <= largestPow2 m -> is_pow2 (largestPow2 m / 2 ^ j).
Proof.
  intros Hj H. unfold largestPow2 in *.
  assert (Hk : j <= Z.log2 m).
  { apply (Z.pow_le_mono_r_iff 2); [lia | apply Z.log2_nonneg | exact H]. }
  exists (Z.log2 m - j). split; [lia|]. apply pow2_div. lia.
Qed.

(** ** Completion of the constructor *)

Lemma workGroupSizes_cases dev t length :
  wf_inputs dev t length ->
  (clampedSortSize dev t length / 2 = 0 /\
   workGroupSizes dev t length = Undefined DivisionByZero) \/
  (0 < clampedSortSize dev t length / 2 /\
   exists sz, workGroupSizes dev t length = Done sz).
Proof.
  intros (Hdev & Ht & HL). unfold workGroupSizes, clampedSortSize.
  rewrite (computeMaxLocalBuffer_wf dev t Hdev Ht).
  rewrite rangeLoop_exit by (destruct Hdev; assumption).
  cbv zeta.
  set (P := largestPow2 (maxBlockSize dev)).
  set (mlb := localCapacity dev t).
  set (sks0 := if length <=? mlb then P / 2 else P / 4).
  assert (HP : 0 < P) by apply largestPow2_pos.
  assert (Hmlb : 0 <= mlb) by (apply (localCapacity_bounds dev t Hdev Ht)).
  assert (Hsks0 : 0 <= sks0).
  { subst sks0. destruct (length <=? mlb); apply Z.div_pos; lia. }
  replace (if sks0 >? mlb then mlb else sks0) with (Z.min sks0 mlb)
    by (rewrite Z.gtb_ltb; destruct (Z.ltb_spec mlb sks0); lia).
  assert (Htbs : 0 <= Z.min sks0 mlb / 2) by (apply Z.div_pos; lia).
  destruct (Z.eqb_spec (Z.min sks0 mlb / 2) 0) as [E|Hnz].
  - left. split; [exact E | reflexivity].
  - right. split; [lia|]. eexists. reflexivity.
Qed.

Lemma CudaSort_new_cases dev t length :
  wf_inputs dev t length ->
  (clampedSortSize dev t length / 2 = 0 /\
   CudaSort_new dev t length = Undefined DivisionByZero) \/
  (0 < clampedSortSize dev t length / 2 /\
   exists s, CudaSort_new dev t length = Done s).
Proof.
  intros W. unfold CudaSort_new.
  destruct (workGroupSizes_cases dev t length W) as [(E & ->)|(E & sz & ->)].
  - left. split; [exact E | reflexivity].
  - right. split; [exact E|]. eexists. reflexivity.
Qed.

(** Everything a completed construction fixes, in closed form. *)
Lemma CudaSort_new_sizes dev t length s :
  wf_inputs dev t length ->
  CudaSort_new dev t length = Done s ->
  let P := largestPow2 (maxBlockSize dev) in
  let cap := localCapacity dev t in
  let nb := Z.max 1 (length / (sortKernelSize s / 2)) in
  trait s = t /\ dataLength s = length /\
  isShortList s = (length <=? cap) /\
  rangeKernelSize s = Z.min P length /\
  sortKernelSize s = Z.min (if isShortList s then P / 2 else P / 4) cap /\
  2 <= sortKernelSize s /\
  positionsKernelSize s = Z.min P nb.
Proof.
  intros W C.
  destruct (CudaSort_new_inv _ _ _ _ C) as (sz & Z & Et & EL & F1 & F2 & F3 & F4).
  destruct (workGroupSizes_inv _ _ _ _ W Z)
    as (_ & I1 & _ & I3 & I4 & I5 & I6 & I7 & I8).
  cbv zeta. rewrite F1, F2, F3, F4. rewrite I8, I7, I5.
  repeat split; try assumption.
  rewrite I5 in I6.
  assert (H := Z.div_lt_upper_bound (szSortKernelSize sz) 2 1).
  destruct (Z_lt_le_dec (szSortKernelSize sz) 2); [lia | assumption].
Qed.

Lemma pow2_le_largestPow2 m j :
  1 <= m -> 0 <= j -> (2 ^ j <= largestPow2 m <-> 2 ^ j <= m).
Proof.
  intros Hm Hj. unfold largestPow2.
  rewrite <- Z.pow_le_mono_r_iff by (try apply Z.log2_nonneg; lia).
  rewrite Z.log2_le_pow2 by lia. reflexivity.
Qed.

(** ** The sort-kernel size *)

(** C9.  [sortKernelSize] is half of [rangeKernelSize] when the list is short
    and a quarter of it otherwise, then clamped down to
    floor(maxSharedMem / dataSize / 2).  Here [rangeKernelSize] has the value
    [P] it leaves the loop with, the largest power of two within the device's
    block size: line 64 runs before line 66 may clamp it.  On a device with
    block size 1024 and 49152 bytes of shared memory, 8-byte records and
    length 1,000,000 the construction completes with [isShortList = false],
    [sortKernelSize = 256], [targetBucketSize = 128], [numBuckets = 7812]
    (the length of [bucketOffset]) and [positionsKernelSize = 1024]. *)
Theorem sortKernelSize_rule dev t L :
  wf_inputs dev t L ->
  let P := largestPow2 (maxBlockSize dev) in
  let cap := maxSharedMem dev / getDataSize t / 2 in
  (forall sz, workGroupSizes dev t L = Done sz ->
     loopRangeKernelSize sz = P /\ maxLocalBuffer sz = cap) /\
  (forall s, CudaSort_new dev t L = Done s ->
     sortKernelSize s = Z.min (if isShortList s then P / 2 else P / 4) cap) /\
  (maxBlockSize dev = 1024 -> maxSharedMem dev = 49152 ->
   getDataSize t = 8 -> L = 1000000 ->
   exists sz s,
     workGroupSizes dev t L = Done sz /\ CudaSort_new dev t L = Done s /\
     isShortList s = false /\ sortKernelSize s = 256 /\
     targetBucketSize sz = 128 /\ numBuckets sz = 7812 /\
     option_map getSize (bucketOffset s) = Some 7812 /\
     positionsKernelSize s = 1024).
Proof.
  intros W P cap. split; [|split].
  - intros sz Z. now destruct (workGroupSizes_inv _ _ _ _ W Z) as (? & _ & ? & _).
  - intros s C. now apply (CudaSort_new_sizes dev t L s W C).
  - destruct dev as [mbs smem], t as [ds ks]. simpl. intros -> -> -> ->.
    do 2 eexists. split; [reflexivity|]. split; [reflexivity|].
    repeat split.
Qed.

Lemma sortKernelSize_rule_witness :
  (forall sz, workGroupSizes scenarioDevice scenarioTrait 1000000 = Done sz ->
     loopRangeKernelSize sz = largestPow2 1024 /\
     maxLocalBuffer sz = 49152 / 8 / 2) /\
  (forall s, CudaSort_new scenarioDevice scenarioTrait 1000000 = Done s ->
     sortKernelSize s =
       Z.min (if isShortList s then largestPow2 1024 / 2
              else largestPow2 1024 / 4) (49152 / 8 / 2)) /\
  (1024 = 1024 -> 49152 = 49152 -> 8 = 8 -> 1000000 = 1000000 ->
   exists sz s,
     workGroupSizes scenarioDevice scenarioTrait 1000000 = Done sz /\
     CudaSort_new scenarioDevice scenarioTrait 1000000 = Done s /\
     isShortList s = false /\ sortKernelSize s = 256 /\
     targetBucketSize sz = 128 /\ numBuckets sz = 7812 /\
     option_map getSize (bucketOffset s) = Some 7812 /\
     positionsKernelSize s = 1024).
Proof.
  apply (sortKernelSize_rule scenarioDevice scenarioTrait 1000000). wf_solve.
Defined.

(** ** Group sizes *)

(** C3 (counterexample).  On the scenario device, 8-byte records and length
    1000 give a short-list construction whose [rangeKernelSize] is clamped to
    the length, 1000, and whose [positionsKernelSize] is clamped to
    [numBuckets], 3: neither is a power of two. *)
Lemma group_sizes_not_pow2 :
  wf_inputs scenarioDevice scenarioTrait 1000 /\
  exists s,
    CudaSort_new scenarioDevice scenarioTrait 1000 = Done s /\
    rangeKernelSize s = 1000 /\ positionsKernelSize s = 3 /\
    ~ group_sizes_pow2 scenarioDevice s.
Proof.
  split; [wf_solve|]. eexists. split; [reflexivity|].
  split; [reflexivity|]. split; [reflexivity|].
  intros ((H & _) & _). apply is_pow2b_spec in H. discriminate H.
Qed.

(** C3 (amended).  With [P] the largest power of two within the device's block
    size, the three group sizes are [P] clamped to the length, [P] clamped to
    [numBuckets], and [P/2] (short list) or [P/4] clamped to the short-list
    capacity.  None exceeds the device's block size, and each is a power of
    two whenever its clamp leaves it alone. *)
Theorem group_sizes_bounded dev t L s :
  wf_inputs dev t L ->
  CudaSort_new dev t L = Done s ->
  let P := largestPow2 (maxBlockSize dev) in
  let cap := maxSharedMem dev / getDataSize t / 2 in
  let nb := Z.max 1 (L / (sortKernelSize s / 2)) in
  let quota := if isShortList s then P / 2 else P / 4 in
  (is_pow2 P /\ P <= maxBlockSize dev) /\
  (rangeKernelSize s = Z.min P L /\
   positionsKernelSize s = Z.min P nb /\
   sortKernelSize s = Z.min quota cap) /\
  (rangeKernelSize s <= maxBlockSize dev /\
   positionsKernelSize s <= maxBlockSize dev /\
   sortKernelSize s <= maxBlockSize dev) /\
  ((P <= L -> is_pow2 (rangeKernelSize s)) /\
   (P <= nb -> is_pow2 (positionsKernelSize s)) /\
   (quota <= cap -> is_pow2 (sortKernelSize s))).
Proof.
  intros W C P cap nb quota.
  destruct (CudaSort_new_sizes dev t L s W C)
    as (_ & _ & _ & Hr & Hs & Hs2 & Hp).
  fold P in Hr, Hs, Hp. fold (localCapacity dev t) in cap.
  fold cap quota in Hs. fold nb in Hp.
  assert (HP : 0 < P) by apply largestPow2_pos.
  assert (Hpow : is_pow2 P) by apply largestPow2_is_pow2.
  assert (Hq : quota <= P / 2 /\ (isShortList s = false -> quota = P / 4)).
  { subst quota. clearbody P.
    destruct (isShortList s); split; try div_lia; intros E;
      first [discriminate E | reflexivity]. }
  assert (Hm : 1 <= maxBlockSize dev).
  { destruct W as ((Hb & _) & _).
    destruct (Z.eq_dec (maxBlockSize dev) 0) as [E|]; [|lia].
    exfalso. assert (EP : P = 1) by (subst P; rewrite E; reflexivity).
    clearbody P quota. subst P. change (1 / 2) with 0 in Hq. lia. }
  assert (HPm : P <= maxBlockSize dev) by (apply largestPow2_le; exact Hm).
  assert (Hdiv2 : 2 <= P / 2 -> is_pow2 (P / 2)).
  { intros H. change (P / 2) with (largestPow2 (maxBlockSize dev) / 2 ^ 1).
    apply largestPow2_div; [lia|].
    change (2 ^ 1) with 2. fold P. clearbody P. div_lia. }
  assert (Hdiv4 : 2 <= P / 4 -> is_pow2 (P / 4)).
  { intros H. change (P / 4) with (largestPow2 (maxBlockSize dev) / 2 ^ 2).
    apply largestPow2_div; [lia|].
    change (2 ^ 2) with 4. fold P. clearbody P. div_lia. }
  split; [split; assumption|]. split; [repeat split; assumption|].
  split; [clearbody P quota; repeat split; div_lia|].
  split; [|split].
  - intros H. rewrite Hr, Z.min_l by (clearbody P; lia). exact Hpow.
  - intros H. rewrite Hp, Z.min_l by (clearbody P; lia). exact Hpow.
  - intros H. rewrite Z.min_l in Hs by exact H. rewrite Hs in *.
    unfold quota in *. destruct (isShortList s); auto.
Qed.

Lemma group_sizes_bounded_witness :
  exists s,
    CudaSort_new scenarioDevice scenarioTrait 1000000 = Done s /\
    let P := largestPow2 1024 in
    let cap := 49152 / 8 / 2 in
    let nb := Z.max 1 (1000000 / (sortKernelSize s / 2)) in
    let quota := if isShortList s then P / 2 else P / 4 in
    (is_pow2 P /\ P <= 1024) /\
    (rangeKernelSize s = Z.min P 1000000 /\
     positionsKernelSize s = Z.min P nb /\
     sortKernelSize s = Z.min quota cap) /\
    (rangeKernelSize s <= 1024 /\ positionsKernelSize s <= 1024 /\
     sortKernelSize s <= 1024) /\
    ((P <= 1000000 -> is_pow2 (rangeKernelSize s)) /\
     (P <= nb -> is_pow2 (positionsKernelSize s)) /\
     (quota <= cap -> is_pow2 (sortKernelSize s))).
Proof.
  eexists. split; [reflexivity|].
  apply (group_sizes_bounded scenarioDevice scenarioTrait 1000000);
    [wf_solve | reflexivity].
Defined.

(** ** The number of buckets *)

(** C4 (counterexample).  On the scenario device, 8-byte records and length
    1000 give a short-list construction, yet lines 70-74 run all the same:
    [numBuckets] is 1000/256 = 3 and [positionsKernelSize], 1024 after the
    loop, is clamped to it. *)
Lemma numBuckets_on_short_list_path :
  wf_inputs scenarioDevice scenarioTrait 1000 /\
  exists sz,
    workGroupSizes scenarioDevice scenarioTrait 1000 = Done sz /\
    szIsShortList sz = true /\
    numBuckets sz = 3 /\
    loopRangeKernelSize sz = 1024 /\ szPositionsKernelSize sz = 3 /\
    Some (numBuckets sz)
      <> documentedNumBuckets (szIsShortList sz) 1000 (szSortKernelSize sz).
Proof.
  split; [wf_solve|]. eexists. split; [reflexivity|].
  repeat split. discriminate.
Qed.

(** C4 (amended).  In every construction that completes, on either path,
    [numBuckets] is max(1, length / (sortKernelSize/2)) and so at least 1,
    and [positionsKernelSize] is clamped to it; what is particular to the
    non-short-list path is that [bucketOffset] is allocated, its element
    count being [numBuckets] converted to [int]: [numBuckets] itself for
    every length up to [INT_MAX]. *)
Theorem numBuckets_rule dev t L sz s :
  wf_inputs dev t L ->
  workGroupSizes dev t L = Done sz ->
  CudaSort_new dev t L = Done s ->
  numBuckets sz = Z.max 1 (L / (sortKernelSize s / 2)) /\
  1 <= numBuckets sz /\
  0 < sortKernelSize s / 2 /\
  positionsKernelSize s =
    Z.min (largestPow2 (maxBlockSize dev)) (numBuckets sz) /\
  bucketOffset s =
    (if isShortList s then None
     else Some (newArray (to_int (numBuckets sz)) sizeof_uint1
                  "bucketOffset")) /\
  (L <= int_max -> to_int (numBuckets sz) = numBuckets sz).
Proof.
  intros W Z C. unfold CudaSort_new in C. rewrite Z in C. injection C as <-.
  cbn [sortKernelSize positionsKernelSize bucketOffset isShortList].
  destruct (workGroupSizes_inv _ _ _ _ W Z)
    as (_ & _ & _ & _ & _ & I5 & I6 & I7 & I8).
  rewrite <- I5. repeat split; try assumption; try lia.
  intros HL. apply to_int_small.
  assert (HL0 : 0 <= L) by (destruct W as (_ & _ & (H0 & _)); exact H0).
  assert (L / targetBucketSize sz <= L)
    by (apply Z.div_le_upper_bound; nia).
  unfold int_min, int_max in *. lia.
Qed.

Lemma numBuckets_rule_witness :
  exists sz s,
    workGroupSizes scenarioDevice scenarioTrait 100 = Done sz /\
    CudaSort_new scenarioDevice scenarioTrait 100 = Done s /\
    numBuckets sz = Z.max 1 (100 / (sortKernelSize s / 2)) /\
    1 <= numBuckets sz /\
    0 < sortKernelSize s / 2 /\
    positionsKernelSize s = Z.min (largestPow2 1024) (numBuckets sz) /\
    bucketOffset s =
      (if isShortList s then None
       else Some (newArray (to_int (numBuckets sz)) sizeof_uint1
                    "bucketOffset")) /\
    (100 <= int_max -> to_int (numBuckets sz) = numBuckets sz).
Proof.
  do 2 eexists. split; [reflexivity|]. split; [reflexivity|].
  apply (numBuckets_rule scenarioDevice scenarioTrait 100);
    [wf_solve | reflexivity | reflexivity].
Defined.

(** ** The divisor of line 70 *)

(** C10 (counterexample).  A device whose block size is 1, and a device with
    16 bytes of shared memory, both with 8-byte records: [sortKernelSize] is
    0, respectively 1, so [targetBucketSize] is 0 and line 70 divides by
    zero. *)
Lemma construction_divides_by_zero :
  let tiny := {| maxBlockSize := 1; maxSharedMem := 49152 |} in
  let cramped := {| maxBlockSize := 1024; maxSharedMem := 16 |} in
  (wf_inputs tiny scenarioTrait 10 /\ 1 <= maxBlockSize tiny /\
   clampedSortSize tiny scenarioTrait 10 / 2 = 0 /\
   CudaSort_new tiny scenarioTrait 10 = Undefined DivisionByZero) /\
  (wf_inputs cramped scenarioTrait 1 /\ 1 <= maxBlockSize cramped /\
   clampedSortSize cramped scenarioTrait 1 / 2 = 0 /\
   CudaSort_new cramped scenarioTrait 1 = Undefined DivisionByZero).
Proof.
  cbv zeta. repeat split; try wf_solve; simpl; lia.
Qed.

(** C10 (amended).  For inputs in the ranges of their types,
    [targetBucketSize = sortKernelSize / 2] is positive, and the construction
    completes, exactly when floor(maxSharedMem / dataSize / 2) is at least 2
    and the device's block size is at least 4 for a short list, at least 8
    otherwise; for every other input line 70 divides by zero. *)
Theorem targetBucketSize_positive_iff dev t L :
  wf_inputs dev t L ->
  let cap := maxSharedMem dev / getDataSize t / 2 in
  let roomy :=
    2 <= cap /\ (if L <=? cap then 4 else 8) <= maxBlockSize dev in
  (roomy ->
   exists sz s,
     workGroupSizes dev t L = Done sz /\
     targetBucketSize sz = szSortKernelSize sz / 2 /\
     0 < targetBucketSize sz /\
     CudaSort_new dev t L = Done s) /\
  (~ roomy ->
   clampedSortSize dev t L / 2 = 0 /\
   CudaSort_new dev t L = Undefined DivisionByZero).
Proof.
  intros W cap roomy.
  assert (Hiff : roomy <-> 0 < clampedSortSize dev t L / 2).
  { subst roomy. unfold clampedSortSize. fold (localCapacity dev t) in cap.
    fold cap. destruct W as ((Hb & _) & _).
    set (P := largestPow2 (maxBlockSize dev)).
    assert (HP : 0 < P) by apply largestPow2_pos.
    assert (H4 : 4 <= P <-> 4 <= maxBlockSize dev).
    { destruct (Z.eq_dec (maxBlockSize dev) 0) as [E|].
      - subst P. rewrite E. change (largestPow2 0) with 1. lia.
      - apply (pow2_le_largestPow2 (maxBlockSize dev) 2); lia. }
    assert (H8 : 8 <= P <-> 8 <= maxBlockSize dev).
    { destruct (Z.eq_dec (maxBlockSize dev) 0) as [E|].
      - subst P. rewrite E. change (largestPow2 0) with 1. lia.
      - apply (pow2_le_largestPow2 (maxBlockSize dev) 3); lia. }
    clearbody P cap. destruct (L <=? cap); div_lia. }
  split.
  - intros R. apply Hiff in R.
    destruct (workGroupSizes_cases dev t L W) as [(E & _)|(_ & sz & Z)];
      [lia|].
    destruct (CudaSort_new_cases dev t L W) as [(E & _)|(_ & s & C)]; [lia|].
    destruct (workGroupSizes_inv _ _ _ _ W Z)
      as (_ & _ & _ & _ & _ & I5 & I6 & _).
    exists sz, s. repeat split; assumption.
  - intros R. rewrite Hiff in R.
    destruct (CudaSort_new_cases dev t L W) as [(E & C)|(E & _)]; [|lia].
    split; assumption.
Qed.

Lemma targetBucketSize_positive_iff_witness :
  let cap := 49152 / 8 / 2 in
  let roomy := 2 <= cap /\ (if 1000000 <=? cap then 4 else 8) <= 1024 in
  (roomy ->
   exists sz s,
     workGroupSizes scenarioDevice scenarioTrait 1000000 = Done sz /\
     targetBucketSize sz = szSortKernelSize sz / 2 /\
     0 < targetBucketSize sz /\
     CudaSort_new scenarioDevice scenarioTrait 1000000 = Done s) /\
  (~ roomy ->
   clampedSortSize scenarioDevice scenarioTrait 1000000 / 2 = 0 /\
   CudaSort_new scenarioDevice scenarioTrait 1000000
     = Undefined DivisionByZero).
Proof.
  apply (targetBucketSize_positive_iff scenarioDevice scenarioTrait 1000000).
  wf_solve.
Defined.

(** ** Running [sort] *)

Lemma sort_check s data :
  wf_buffer data ->
  negb (to_uint (getSize data) =? dataLength s)
  || negb (getElementSize data =? getDataSize (trait s)) = true
  <-> mismatched s data.
Proof.
  intros ((H0 & H1) & _). unfold mismatched.
  rewrite to_uint_small by (unfold int_max, modulus in *; lia).
  rewrite orb_true_iff, !negb_true_iff, !Z.eqb_neq. reflexivity.
Qed.

Lemma sort_mismatched s data c :
  wf_buffer data -> mismatched s data ->
  sort s data c = (c, Thrown InvalidArgument).
Proof.
  intros W Hm. apply (sort_check s data W) in Hm. unfold sort.
  rewrite Hm. reflexivity.
Qed.

Lemma perform_returned op c c' r :
  perform op c = (c', r) ->
  (r = Returned tt /\ c' = issue op c) \/
  (r = Thrown DeviceExecutionFailure /\ c' = refuse c).
Proof.
  unfold perform. destruct (accepts c (requests c) op); intros H;
    injection H as <- <-;
    [left | right]; split; reflexivity.
Qed.

Lemma issue_stream op c : stream (issue op c) = stream c ++ [op].
Proof. reflexivity. Qed.

(** Stepping through a sequence of context calls that ends well. *)
Ltac step_perform H :=
  match type of H with
  | context [perform ?op ?c] =>
      let r := fresh "r" in
      let c1 := fresh "c" in
      let E := fresh "E" in
      destruct (perform op c) as [c1 r] eqn:E;
      destruct (perform_returned _ _ _ _ E) as [[-> ->]|[-> ->]];
      clear E; cbn beta iota in H; [|discriminate H]
  end.

Lemma sort_short_list_returned s data c c' :
  wf_buffer data -> ~ mismatched s data -> getSize data <> 0 ->
  isShortList s = true ->
  sort s data c = (c', Returned tt) ->
  stream c' = stream c ++ shortListOps s data.
Proof.
  intros W Hm Hnz Hs H.
  rewrite <- (sort_check s data W) in Hm. apply not_true_is_false in Hm.
  unfold sort in H. rewrite Hm, Hs in H.
  apply Z.eqb_neq in Hnz. rewrite Hnz in H.
  cbv zeta in H. unfold executeKernel in H.
  step_perform H. injection H as <-. reflexivity.
Qed.

Lemma sort_buckets_returned s data dr bo be oi bu c c' :
  wf_buffer data -> ~ mismatched s data -> getSize data <> 0 ->
  isShortList s = false ->
  dataRange s = Some dr -> bucketOffset s = Some bo ->
  bucketOfElement s = Some be -> offsetInBucket s = Some oi ->
  buckets s = Some bu ->
  sort s data c = (c', Returned tt) ->
  sortKernelSize s <> 0 /\
  stream c' = stream c ++ bucketOps s data dr bo be oi bu.
Proof.
  intros W Hm Hnz Hs Edr Ebo Ebe Eoi Ebu H.
  rewrite <- (sort_check s data W) in Hm. apply not_true_is_false in Hm.
  unfold sort in H. rewrite Hm, Hs, Edr, Ebo, Ebe, Eoi, Ebu in H.
  apply Z.eqb_neq in Hnz. rewrite Hnz in H.
  unfold executeKernel, clearBuffer, deref, bind, ret in H.
  cbv zeta in H.
  do 5 step_perform H.
  destruct (Z.eqb_spec (sortKernelSize s) 0) as [E0|Hk]; [discriminate H|].
  step_perform H. injection H as <-. split; [exact Hk|].
  rewrite !issue_stream, <- !app_assoc. reflexivity.
Qed.

(** ** The argument check *)

Lemma no_invalid_ret {A} (a : A) : no_invalid (ret a).
Proof. intros c. discriminate. Qed.

Lemma no_invalid_fault {A} f : no_invalid (@fault A f).
Proof. intros c. discriminate. Qed.

Lemma no_invalid_perform op : no_invalid (perform op).
Proof.
  intros c. unfold perform. destruct (accepts c (requests c) op); discriminate.
Qed.

Lemma no_invalid_deref p : no_invalid (deref p).
Proof. destruct p; [apply no_invalid_ret | apply no_invalid_fault]. Qed.

Lemma no_invalid_bind {A B} (m : M A) (k : A -> M B) :
  no_invalid m -> (forall a, no_invalid (k a)) -> no_invalid (bind m k).
Proof.
  intros Hm Hk c. unfold bind. specialize (Hm c).
  destruct (m c) as [c1 [a|e|f]]; cbn [snd] in *.
  - apply Hk.
  - intros E. apply Hm. injection E as ->. reflexivity.
  - discriminate.
Qed.

Create HintDb sort_db.
#[local] Hint Resolve no_invalid_ret no_invalid_fault no_invalid_perform
  no_invalid_deref : sort_db.

Ltac no_invalid_steps :=
  repeat first
    [ apply no_invalid_bind; [|intros ?]
    | progress (unfold executeKernel, clearBuffer)
    | solve [auto with sort_db]
    | match goal with
      | |- no_invalid (if ?b then _ else _) => destruct b
      end ].

Lemma sort_checked_no_invalid s data :
  negb (to_uint (getSize data) =? dataLength s)
  || negb (getElementSize data =? getDataSize (trait s)) = false ->
  no_invalid (sort s data).
Proof.
  intros Hm. unfold sort. rewrite Hm. cbv zeta. no_invalid_steps.
Qed.

(** C5.  [sort] throws the invalid-argument exception exactly when the
    buffer's length differs from the configured length or its element size
    differs from the trait's data size; when it does, the context is as it
    was: no kernel has been launched and no buffer cleared. *)
Theorem sort_invalid_argument_iff s data c :
  wf_buffer data ->
  (snd (sort s data c) = Thrown InvalidArgument <-> mismatched s data) /\
  (snd (sort s data c) = Thrown InvalidArgument -> fst (sort s data c) = c).
Proof.
  intros W.
  assert (Hiff : snd (sort s data c) = Thrown InvalidArgument
                 <-> mismatched s data).
  { split.
    - intros H. rewrite <- (sort_check s data W).
      destruct (negb (to_uint (getSize data) =? dataLength s)
                || negb (getElementSize data =? getDataSize (trait s)))
        eqn:Hm; [reflexivity|].
      exfalso. exact (sort_checked_no_invalid s data Hm c H).
    - intros Hm. now rewrite (sort_mismatched s data c W Hm). }
  split; [exact Hiff|].
  intros H. apply Hiff in H. now rewrite (sort_mismatched s data c W H).
Qed.

Lemma sort_invalid_argument_iff_witness :
  exists s,
    CudaSort_new scenarioDevice scenarioTrait 2000 = Done s /\
    let data := newArray 1999 8 "data" in
    (snd (sort s data idleContext) = Thrown InvalidArgument
     <-> mismatched s data) /\
    (snd (sort s data idleContext) = Thrown InvalidArgument ->
     fst (sort s data idleContext) = idleContext).
Proof.
  eexists. split; [reflexivity|].
  apply sort_invalid_argument_iff. unfold wf_buffer, int_max. simpl. lia.
Defined.

(** ** An empty array *)

(** C6.  For a scheduler configured with length 0, every call of [sort]
    whose buffer has the configured length and element size, as [sort]
    requires of its callers, is a no-op that succeeds: it returns at once,
    whatever the backend would do, with no kernel launched, no buffer cleared
    and the context exactly as it was. *)
Theorem sort_empty_noop s data c :
  dataLength s = 0 ->
  wf_buffer data ->
  ~ mismatched s data ->
  sort s data c = (c, Returned tt).
Proof.
  intros HL W Hok.
  assert (E : getSize data = 0).
  { unfold mismatched in Hok. destruct (Z.eq_dec (getSize data) 0); lia. }
  rewrite <- (sort_check s data W) in Hok. apply not_true_is_false in Hok.
  unfold sort. rewrite Hok, E. reflexivity.
Qed.

Lemma sort_empty_noop_witness :
  exists s,
    CudaSort_new scenarioDevice scenarioTrait 0 = Done s /\
    let data := newArray 0 8 "data" in
    let c := {| accepts := fun _ _ => false; requests := 0; stream := [] |} in
    sort s data c = (c, Returned tt).
Proof.
  eexists. split; [reflexivity|].
  apply sort_empty_noop;
    [reflexivity | unfold wf_buffer, int_max; simpl; lia |].
  unfold mismatched. simpl. lia.
Defined.

(** ** Bounds a completed construction guarantees *)

Lemma CudaSort_new_bounds dev t L s :
  wf_inputs dev t L ->
  CudaSort_new dev t L = Done s ->
  let P := largestPow2 (maxBlockSize dev) in
  let cap := localCapacity dev t in
  (4 <= P <= maxBlockSize dev) /\
  (2 <= sortKernelSize s <= P / 2 /\ sortKernelSize s <= cap) /\
  (0 <= rangeKernelSize s <= P /\ rangeKernelSize s <= L) /\
  (1 <= positionsKernelSize s <= P) /\
  (isShortList s = true -> L <= cap) /\
  (isShortList s = false -> cap < L).
Proof.
  intros W C P cap.
  destruct (CudaSort_new_sizes dev t L s W C)
    as (_ & _ & Hshort & Hr & Hs & Hs2 & Hp).
  fold P in Hr, Hs, Hp. fold cap in Hs, Hshort.
  destruct W as ((Hb & _) & _ & (HL & _)).
  assert (HP : 0 < P) by apply largestPow2_pos.
  assert (Hq : (if isShortList s then P / 2 else P / 4) <= P / 2).
  { clearbody P. destruct (isShortList s); div_lia. }
  assert (Hm : 1 <= maxBlockSize dev).
  { destruct (Z.eq_dec (maxBlockSize dev) 0) as [E|]; [|lia].
    exfalso. assert (EP : P = 1) by (subst P; rewrite E; reflexivity).
    clearbody P. subst P. change (1 / 2) with 0 in Hq, Hs.
    change (1 / 4) with 0 in Hs. destruct (isShortList s); lia. }
  assert (HPm : P <= maxBlockSize dev) by (apply largestPow2_le; exact Hm).
  clearbody P cap.
  repeat split; try lia; try div_lia.
  - intros E. rewrite E in Hshort. symmetry in Hshort.
    now apply Z.leb_le in Hshort.
  - intros E. rewrite E in Hshort. symmetry in Hshort.
    now apply Z.leb_gt in Hshort.
Qed.

Lemma CudaSort_new_arrays dev t L s :
  wf_inputs dev t L ->
  CudaSort_new dev t L = Done s ->
  isShortList s = false ->
  exists nb,
    (nb = Z.max 1 (L / (sortKernelSize s / 2)) /\ 1 <= nb <= Z.max 1 L) /\
    dataRange s = Some (newArray 2 (getKeySize t) "sortDataRange") /\
    bucketOffset s = Some (newArray (to_int nb) sizeof_uint1 "bucketOffset") /\
    bucketOfElement s
      = Some (newArray (to_int L) sizeof_uint1 "bucketOfElement") /\
    offsetInBucket s
      = Some (newArray (to_int L) sizeof_uint1 "offsetInBucket") /\
    buckets s = Some (newArray (to_int L) (getDataSize t) "buckets").
Proof.
  intros W C Hs. unfold CudaSort_new in C.
  destruct (workGroupSizes dev t L) as [sz|f] eqn:Z; [|discriminate].
  injection C as <-.
  cbn [isShortList sortKernelSize dataRange bucketOffset bucketOfElement
       offsetInBucket buckets] in Hs |- *.
  rewrite Hs.
  destruct (workGroupSizes_inv _ _ _ _ W Z)
    as (_ & _ & _ & _ & _ & I5 & I6 & I7 & _).
  exists (numBuckets sz). rewrite <- I5.
  split; [|repeat split].
  destruct W as (_ & _ & (HL & _)).
  assert (L / targetBucketSize sz <= L) by (apply Z.div_le_upper_bound; nia).
  lia.
Qed.

(** ** The two execution paths *)

Lemma sort_returned_matches s data c c' :
  wf_buffer data ->
  sort s data c = (c', Returned tt) -> ~ mismatched s data.
Proof.
  intros W H Hm. rewrite (sort_mismatched s data c W Hm) in H. discriminate H.
Qed.

(** The thread count of the last stage, free of wrap-around. *)
Lemma sortBuckets_threads L k :
  0 <= L <= int_max -> 2 <= k < 2 ^ 30 ->
  exists n,
    (n - 1) * k < L <= n * k /\
    to_uint (to_uint (to_uint (to_uint (to_uint L + k) - 1) / k) * k) = n * k.
Proof.
  unfold int_max. intros HL Hk. exists ((L + k - 1) / k).
  assert (Hlo : k * ((L + k - 1) / k) <= L + k - 1)
    by (apply Z.mul_div_le; lia).
  assert (Hhi : L + k - 1 < k * Z.succ ((L + k - 1) / k))
    by (apply Z.mul_succ_div_gt; lia).
  assert (Hq : 0 <= (L + k - 1) / k) by (apply Z.div_pos; lia).
  split; [nia|].
  rewrite (to_uint_small L) by (unfold modulus; lia).
  rewrite (to_uint_small (L + k)) by (unfold modulus; lia).
  rewrite (to_uint_small (L + k - 1)) by (unfold modulus; lia).
  rewrite (to_uint_small ((L + k - 1) / k)) by (unfold modulus; nia).
  apply to_uint_small. unfold modulus. nia.
Qed.

(** C7.  A [sort] of a non-empty array that returns normally has run exactly
    one of two sequences on the context.  For a short list: one launch of the
    short-list kernel with [sortKernelSize] threads, all in one group, and
    length x dataSize bytes of shared memory.  Otherwise, in this order: the
    range kernel, the clearing of [bucketOffset], the assignment kernel with
    one thread per element, the positions kernel, the copy kernel with one
    thread per element, and the bucket sort with
    ceil(length / sortKernelSize) x sortKernelSize threads in groups of
    [sortKernelSize]. *)
Theorem sort_runs_one_path dev t L s data c c' :
  wf_inputs dev t L ->
  CudaSort_new dev t L = Done s ->
  wf_buffer data ->
  L <> 0 ->
  sort s data c = (c', Returned tt) ->
  if isShortList s then
    stream c' = stream c ++ shortListPath s data /\
    groupsLaunched (sortKernelSize s) (sortKernelSize s) = 1
  else
    exists dr bo be oi bu groups,
      dataRange s = Some dr /\ bucketOffset s = Some bo /\
      bucketOfElement s = Some be /\ offsetInBucket s = Some oi /\
      buckets s = Some bu /\
      (groups - 1) * sortKernelSize s < L <= groups * sortKernelSize s /\
      stream c' = stream c ++ bucketPath s data dr bo be oi bu groups.
Proof.
  intros W C Wd HL H.
  pose proof W as W'. unfold wf_inputs, wf_device, wf_trait, is_uint in W'.
  pose proof Wd as Wd'. unfold wf_buffer in Wd'.
  pose proof (sort_returned_matches s data c c' Wd H) as Hm.
  destruct (CudaSort_new_sizes dev t L s W C) as (Et & EL & _).
  destruct (CudaSort_new_bounds dev t L s W C)
    as ((HP4 & HPm) & (Hk & Hkc) & _ & _ & Hsh & _).
  destruct (localCapacity_bounds dev t) as (Hc0 & Hc1 & _);
    try apply W.
  assert (Hsz : getSize data = L /\ getElementSize data = getDataSize t).
  { unfold mismatched in Hm. rewrite Et, EL in Hm. lia. }
  destruct Hsz as (Esz & Eel).
  assert (Hnz : getSize data <> 0) by lia.
  assert (HuD : to_uint (getDataSize t) = getDataSize t).
  { apply to_uint_small. unfold modulus, int_max in *. lia. }
  assert (Hk30 : sortKernelSize s < 2 ^ 30).
  { unfold int_max in *. set (P := largestPow2 (maxBlockSize dev)) in *.
    clearbody P. div_lia. }
  destruct (isShortList s) eqn:Hs.
  - split.
    + rewrite (sort_short_list_returned s data c c' Wd Hm Hnz Hs H).
      unfold shortListOps, shortListPath. rewrite Et, EL, HuD.
      rewrite to_uint_small; [reflexivity|].
      specialize (Hsh eq_refl). unfold modulus, int_max in *. nia.
    + unfold groupsLaunched.
      replace (sortKernelSize s + sortKernelSize s - 1)
        with (1 * sortKernelSize s + (sortKernelSize s - 1)) by lia.
      rewrite Z.div_add_l by lia. rewrite Z.div_small by lia. reflexivity.
  - destruct (CudaSort_new_arrays dev t L s W C Hs)
      as (nb & Hnb & Edr & Ebo & Ebe & Eoi & Ebu).
    destruct (sort_buckets_returned s data _ _ _ _ _ c c' Wd Hm Hnz Hs
                Edr Ebo Ebe Eoi Ebu H) as (_ & Hstream).
    destruct (sortBuckets_threads L (sortKernelSize s)) as (n & Hn & En);
      [lia | lia |].
    do 5 eexists. exists n.
    do 5 (split; [eassumption|]). split; [exact Hn|].
    rewrite Hstream. unfold bucketOps, bucketPath. cbv zeta.
    cbn [getSize newArray]. rewrite Et, EL, Esz, HuD, En.
    assert (HuK : to_uint (getKeySize t) = getKeySize t).
    { apply to_uint_small. unfold modulus, int_max in *. lia. }
    assert (Hinb : to_int nb = nb).
    { apply to_int_small. unfold int_min, int_max in *. lia. }
    assert (Hunb : to_uint nb = nb).
    { apply to_uint_small. unfold modulus, int_max in *. lia. }
    rewrite HuK, Hinb, Hunb.
    rewrite (to_uint_small (sortKernelSize s * getDataSize t));
      [reflexivity|].
    unfold modulus, int_max in *. nia.
Qed.

Lemma sort_runs_one_path_witness :
  exists s c',
    let data := newArray 1000000 8 "data" in
    CudaSort_new scenarioDevice scenarioTrait 1000000 = Done s /\
    sort s data idleContext = (c', Returned tt) /\
    if isShortList s then
      stream c' = stream idleContext ++ shortListPath s data /\
      groupsLaunched (sortKernelSize s) (sortKernelSize s) = 1
    else
      exists dr bo be oi bu groups,
        dataRange s = Some dr /\ bucketOffset s = Some bo /\
        bucketOfElement s = Some be /\ offsetInBucket s = Some oi /\
        buckets s = Some bu /\
        (groups - 1) * sortKernelSize s < 1000000
          <= groups * sortKernelSize s /\
        stream c' = stream idleContext
                    ++ bucketPath s data dr bo be oi bu groups.
Proof.
  exists_constructed scenarioDevice scenarioTrait 1000000.
  match goal with
  | |- exists c', let data := ?d in CudaSort_new _ _ _ = Done ?s /\ _ =>
      exists_context_after s d idleContext
  end.
  cbv zeta. split; [vm_compute; reflexivity|].
  split; [vm_compute; reflexivity|].
  apply (sort_runs_one_path scenarioDevice scenarioTrait 1000000);
    try (vm_compute; reflexivity); try wf_solve;
    try (unfold wf_buffer, int_max; simpl; lia); discriminate.
Defined.

(** ** Shared-memory grants *)

(** C8 (counterexample).  On the scenario device a record type whose key
    takes 64 bytes, sorted at length 1000, goes down the bucket path; the
    range kernel is launched with 1000 x 64 = 64000 bytes of shared memory,
    more than the device's 49152. *)
Lemma range_grant_exceeds_shared_memory :
  let wide := {| getDataSize := 64; getKeySize := 64 |} in
  let data := newArray 1000 64 "data" in
  wf_inputs scenarioDevice wide 1000 /\ wf_buffer data /\
  exists s c' args,
    CudaSort_new scenarioDevice wide 1000 = Done s /\
    sort s data idleContext = (c', Returned tt) /\
    In (ExecuteKernel computeRange args 1000 (Some 1000) (Some 64000))
       (stream c') /\
    maxSharedMem scenarioDevice < 64000.
Proof.
  cbv zeta. split; [wf_solve|]. split; [unfold wf_buffer, int_max; simpl; lia|].
  exists_constructed scenarioDevice {| getDataSize := 64; getKeySize := 64 |}
    1000.
  match goal with
  | |- exists c' args, CudaSort_new _ _ _ = Done ?s /\ _ =>
      exists_context_after s (newArray 1000 64 "data") idleContext
  end.
  eexists. split; [vm_compute; reflexivity|].
  split; [vm_compute; reflexivity|].
  split; [left; reflexivity | reflexivity].
Qed.

(** C8 (amended).  In a [sort] that returns normally the short-list grant is
    length x dataSize and the bucket sort's grant is exactly
    sortKernelSize x dataSize, and neither exceeds half the device's shared
    memory per block.  The range and positions grants are at most
    maxBlockSize x keySize and maxBlockSize x 4 bytes; they are within the
    device's shared memory whenever maxBlockSize x max(keySize, 4) is.  The
    other two launches pass no byte count. *)
Theorem shared_memory_grants dev t L s data c c' :
  wf_inputs dev t L ->
  CudaSort_new dev t L = Done s ->
  wf_buffer data ->
  sort s data c = (c', Returned tt) ->
  let D := getDataSize t in
  let K := getKeySize t in
  let S := maxSharedMem dev in
  exists ops,
    stream c' = stream c ++ ops /\
    (forall k args wu bs bytes,
       In (ExecuteKernel k args wu bs (Some bytes)) ops ->
       match k with
       | sortShortList => bytes = L * D /\ 2 * bytes <= S
       | sortBuckets => bytes = sortKernelSize s * D /\ 2 * bytes <= S
       | computeRange =>
           bytes <= rangeKernelSize s * K <= maxBlockSize dev * K
       | computeBucketPositions =>
           bytes <= positionsKernelSize s * 4 <= maxBlockSize dev * 4
       | assignElementsToBuckets | copyDataToBuckets => False
       end) /\
    (maxBlockSize dev * Z.max K 4 <= S ->
     forall k args wu bs bytes,
       In (ExecuteKernel k args wu bs (Some bytes)) ops -> bytes <= S).
Proof.
  intros W C Wd H D K S.
  pose proof W as W'. unfold wf_inputs, wf_device, wf_trait, is_uint in W'.
  pose proof Wd as Wd'. unfold wf_buffer in Wd'.
  pose proof (sort_returned_matches s data c c' Wd H) as Hm.
  destruct (CudaSort_new_sizes dev t L s W C) as (Et & EL & _).
  destruct (CudaSort_new_bounds dev t L s W C)
    as ((HP4 & HPm) & (Hk & Hkc) & (Hr & _) & Hp & Hsh & _).
  destruct (localCapacity_bounds dev t) as (Hc0 & Hc1 & _); try apply W.
  assert (Esz : getSize data = L).
  { unfold mismatched in Hm. rewrite EL in Hm. lia. }
  assert (HuD : to_uint (getDataSize t) = getDataSize t).
  { apply to_uint_small. unfold modulus, int_max in *. lia. }
  assert (HuK : to_uint (getKeySize t) = getKeySize t).
  { apply to_uint_small. unfold modulus, int_max in *. lia. }
  set (P := largestPow2 (maxBlockSize dev)) in *. clearbody P.
  set (cap := localCapacity dev t) in *. clearbody cap.
  assert (Hops : exists ops,
    stream c' = stream c ++ ops /\
    forall k args wu bs bytes,
      In (ExecuteKernel k args wu bs (Some bytes)) ops ->
      match k with
      | sortShortList => bytes = L * D /\ 2 * bytes <= S
      | sortBuckets => bytes = sortKernelSize s * D /\ 2 * bytes <= S
      | computeRange =>
          bytes <= rangeKernelSize s * K <= maxBlockSize dev * K
      | computeBucketPositions =>
          bytes <= positionsKernelSize s * 4 <= maxBlockSize dev * 4
      | assignElementsToBuckets | copyDataToBuckets => False
      end).
  { destruct (Z.eq_dec L 0) as [E0|HL].
    - exists []. split; [|intros ? ? ? ? ? []].
      rewrite <- (sort_check s data Wd) in Hm. apply not_true_is_false in Hm.
      unfold sort in H. rewrite Hm, Esz, E0 in H. cbn in H.
      injection H as <-. now rewrite app_nil_r.
    - assert (Hnz : getSize data <> 0) by lia.
      destruct (isShortList s) eqn:Hs.
      + exists (shortListOps s data).
        split; [exact (sort_short_list_returned s data c c' Wd Hm Hnz Hs H)|].
        intros k args wu bs bytes [E|[]]. injection E as <- _ _ _ <-.
        rewrite Et, EL, HuD. specialize (Hsh eq_refl).
        rewrite to_uint_small by (unfold modulus, int_max in *; nia).
        subst D S. split; [reflexivity | nia].
      + destruct (CudaSort_new_arrays dev t L s W C Hs)
          as (nb & Hnb & Edr & Ebo & Ebe & Eoi & Ebu).
        destruct (sort_buckets_returned s data _ _ _ _ _ c c' Wd Hm Hnz Hs
                    Edr Ebo Ebe Eoi Ebu H) as (_ & Hstream).
        eexists. split; [exact Hstream|].
        intros k args wu bs bytes Hin. unfold bucketOps in Hin.
        cbv zeta in Hin. rewrite Et, HuD, HuK in Hin.
        repeat (destruct Hin as [E|Hin];
                [try discriminate E; injection E as <- _ _ _ <-|]);
          try contradiction; subst D K S.
        * split; [apply to_uint_le; nia | nia].
        * unfold sizeof_int. split; [apply to_uint_le; lia | lia].
        * rewrite to_uint_small by (unfold modulus, int_max in *; nia).
          split; [reflexivity | nia]. }
  destruct Hops as (ops & Hstream & Hall).
  exists ops. split; [exact Hstream|]. split; [exact Hall|].
  intros Hroom k args wu bs bytes Hin. specialize (Hall _ _ _ _ _ Hin).
  subst D K S. destruct k; try contradiction; try nia; try lia.
Qed.

Lemma shared_memory_grants_witness :
  exists s c',
    let data := newArray 1000000 8 "data" in
    CudaSort_new scenarioDevice scenarioTrait 1000000 = Done s /\
    sort s data idleContext = (c', Returned tt) /\
    exists ops,
      stream c' = stream idleContext ++ ops /\
      (forall k args wu bs bytes,
         In (ExecuteKernel k args wu bs (Some bytes)) ops ->
         match k with
         | sortShortList => bytes = 1000000 * 8 /\ 2 * bytes <= 49152
         | sortBuckets => bytes = sortKernelSize s * 8 /\ 2 * bytes <= 49152
         | computeRange => bytes <= rangeKernelSize s * 4 <= 1024 * 4
         | computeBucketPositions =>
             bytes <= positionsKernelSize s * 4 <= 1024 * 4
         | assignElementsToBuckets | copyDataToBuckets => False
         end) /\
      (1024 * Z.max 4 4 <= 49152 ->
       forall k args wu bs bytes,
         In (ExecuteKernel k args wu bs (Some bytes)) ops -> bytes <= 49152).
Proof.
  exists_constructed scenarioDevice scenarioTrait 1000000.
  match goal with
  | |- exists c', let data := ?d in CudaSort_new _ _ _ = Done ?s /\ _ =>
      exists_context_after s d idleContext
  end.
  cbv zeta. split; [vm_compute; reflexivity|].
  split; [vm_compute; reflexivity|].
  apply (shared_memory_grants scenarioDevice scenarioTrait 1000000 _
           (newArray 1000000 8 "data") idleContext);
    try (vm_compute; reflexivity); try wf_solve;
    unfold wf_buffer, int_max; simpl; lia.
Defined.

(** * Further properties of the constructor and of [sort] *)

(** ** The loop of lines 61-62 *)

(** X1.  For a device block size [m] between 1 and [INT_MAX] the loop exits,
    within [rangeLoopFuel] rounds and with the same value however many more
    it is allowed, leaving in [rangeKernelSize] the one power of two [p] with
    [p <= m < 2p]. *)
Theorem rangeLoop_largest_power m fuel :
  1 <= m <= int_max -> (rangeLoopFuel <= fuel)%nat ->
  exists p,
    rangeLoop fuel 1 (to_uint m) = Some p /\
    is_pow2 p /\ p <= m < 2 * p /\
    (forall q, is_pow2 q -> q <= m < 2 * q -> q = p).
Proof.
  intros Hm Hf. exists (largestPow2 m).
  assert (Hu : is_uint (to_uint m)).
  { unfold is_uint, to_uint, modulus. apply Z.mod_pos_bound. lia. }
  rewrite (rangeLoop_fuel_enough fuel (to_uint m) Hu Hf).
  rewrite rangeLoop_exit by lia.
  split; [reflexivity|]. split; [apply largestPow2_is_pow2|].
  split; [apply largestPow2_bounds; lia|].
  intros q (k & Hk & ->) Hq. unfold largestPow2. f_equal. symmetry.
  apply Z.log2_unique; [exact Hk|].
  rewrite Z.pow_succ_r by exact Hk. lia.
Qed.

Lemma rangeLoop_largest_power_witness :
  exists p,
    rangeLoop 40 1 (to_uint 1000) = Some p /\
    is_pow2 p /\ p <= 1000 < 2 * p /\
    (forall q, is_pow2 q -> q <= 1000 < 2 * q -> q = p).
Proof.
  apply (rangeLoop_largest_power 1000 40);
    unfold int_max, rangeLoopFuel; lia.
Defined.

(** X2.  A negative block size converts to an [unsigned int] of at least
    2^31; the doubled counter then wraps to 0 before it can exceed it, and the
    loop never exits, whatever the fuel.  The constructor does not return for
    such a device. *)
Theorem rangeLoop_never_exits dev t L :
  int_min <= maxBlockSize dev < 0 -> 0 < getDataSize t ->
  (forall fuel, rangeLoop fuel 1 (to_uint (maxBlockSize dev)) = None) /\
  CudaSort_new dev t L = Undefined Nontermination.
Proof.
  unfold int_min. intros Hm HD.
  assert (Hbig : 2 ^ 31 <= to_uint (maxBlockSize dev)).
  { unfold to_uint, modulus.
    replace (maxBlockSize dev) with (maxBlockSize dev + 2 ^ 32 + -1 * 2 ^ 32)
      by lia.
    rewrite Z.mod_add by lia. rewrite Z.mod_small by lia. lia. }
  assert (Hloop : forall fuel,
            rangeLoop fuel 1 (to_uint (maxBlockSize dev)) = None).
  { intros fuel. change 1 with (to_uint (2 ^ 0)).
    apply rangeLoop_diverges; [lia | exact Hbig]. }
  split; [exact Hloop|].
  unfold CudaSort_new, workGroupSizes, computeMaxLocalBuffer.
  destruct (Z.eqb_spec (getDataSize t) 0) as [E|_]; [lia|].
  destruct (Z.eqb_spec (getDataSize t) (-1)) as [E|_]; [lia|].
  rewrite andb_false_r, Hloop. reflexivity.
Qed.

Lemma rangeLoop_never_exits_witness :
  (forall fuel, rangeLoop fuel 1 (to_uint (-1)) = None) /\
  CudaSort_new {| maxBlockSize := -1; maxSharedMem := 49152 |}
               scenarioTrait 2000 = Undefined Nontermination.
Proof.
  apply (rangeLoop_never_exits
           {| maxBlockSize := -1; maxSharedMem := 49152 |} scenarioTrait 2000);
    unfold int_min; simpl; lia.
Defined.

(** ** Runs of [sort] against a backend that may reject operations *)

Lemma acceptsAll_ext c1 c2 ops :
  accepts c1 = accepts c2 ->
  forall n, acceptsAll c1 n ops = acceptsAll c2 n ops.
Proof.
  intros E. induction ops as [|op rest IH]; intros n; [reflexivity|].
  cbn [acceptsAll]. now rewrite E, IH.
Qed.

Lemma acceptsAll_nth c ops :
  forall n k op,
    acceptsAll c n ops = true -> nth_error ops k = Some op ->
    accepts c (n + k) op = true.
Proof.
  induction ops as [|o rest IH]; intros n k op Hall Hk.
  - destruct k; discriminate Hk.
  - cbn [acceptsAll] in Hall. apply andb_true_iff in Hall as (Ho & Hrest).
    destruct k as [|k]; cbn [nth_error] in Hk.
    + injection Hk as <-. now rewrite Nat.add_0_r.
    + rewrite Nat.add_succ_r. apply (IH (S n) k op Hrest Hk).
Qed.

Lemma performAll_run ops :
  forall c,
  exists k,
    (k <= List.length ops)%nat /\
    accepts (fst (performAll ops c)) = accepts c /\
    stream (fst (performAll ops c)) = stream c ++ firstn k ops /\
    acceptsAll c (requests c) (firstn k ops) = true /\
    match nth_error ops k with
    | None => snd (performAll ops c) = Returned tt
    | Some op =>
        accepts c (requests c + k) op = false /\
        snd (performAll ops c) = Thrown DeviceExecutionFailure
    end.
Proof.
  induction ops as [|op rest IH]; intros c.
  - exists 0%nat. cbn. rewrite app_nil_r. repeat split; auto.
  - cbn [performAll]. unfold bind, perform.
    destruct (accepts c (requests c) op) eqn:A.
    + destruct (IH (issue op c)) as (k & Hk & Ha & Hs & Hf & Hn).
      exists (S k). cbn [List.length firstn nth_error acceptsAll].
      split; [lia|]. split; [exact Ha|].
      split; [rewrite Hs; cbn [issue stream]; now rewrite <- app_assoc|].
      split.
      * rewrite A. cbn [andb].
        rewrite <- (acceptsAll_ext (issue op c) c _ eq_refl). exact Hf.
      * rewrite Nat.add_succ_r. exact Hn.
    + exists 0%nat. cbn [List.length firstn nth_error acceptsAll fst snd].
      cbn [refuse accepts stream]. rewrite app_nil_r, Nat.add_0_r.
      repeat split; auto. lia.
Qed.

(** Past the argument check, [sort] on a constructed scheduler is the run of
    its planned operations. *)
Lemma sort_as_performAll dev t L s data c :
  wf_inputs dev t L ->
  CudaSort_new dev t L = Done s ->
  wf_buffer data -> ~ mismatched s data ->
  sort s data c = performAll (plannedOps s data) c.
Proof.
  intros W C Wd Hm.
  destruct (CudaSort_new_bounds dev t L s W C) as (_ & (Hk & _) & _).
  rewrite <- (sort_check s data Wd) in Hm. apply not_true_is_false in Hm.
  unfold sort, plannedOps. rewrite Hm.
  destruct (getSize data =? 0); [reflexivity|].
  destruct (isShortList s) eqn:Hs.
  - unfold shortListOps, executeKernel. cbn [performAll].
    unfold bind, perform, ret.
    match goal with
    | |- context [accepts c ?n ?op] => destruct (accepts c n op)
    end; reflexivity.
  - destruct (CudaSort_new_arrays dev t L s W C Hs)
      as (nb & _ & -> & -> & -> & -> & ->).
    destruct (Z.eqb_spec (sortKernelSize s) 0) as [E|_]; [lia|].
    unfold bucketOps, executeKernel, clearBuffer, deref. cbv zeta.
    cbn [performAll]. unfold bind, perform, ret.
    repeat match goal with
           | |- context [accepts ?c ?n ?op] =>
               destruct (accepts c n op);
               cbn [issue accepts requests]; try reflexivity
           end.
Qed.

(** X3.  On a constructed scheduler [sort] stays within defined behaviour for
    every buffer and every backend: the workspace pointers it follows on the
    bucket path are the ones the constructor allocated there, and the
    [sortKernelSize] it divides by is not 0.  It returns, or throws one of the
    two exceptions. *)
Theorem sort_never_faults dev t L s data c :
  wf_inputs dev t L ->
  CudaSort_new dev t L = Done s ->
  wf_buffer data ->
  snd (sort s data c) = Returned tt \/
  snd (sort s data c) = Thrown InvalidArgument \/
  snd (sort s data c) = Thrown DeviceExecutionFailure.
Proof.
  intros W C Wd.
  destruct (negb (to_uint (getSize data) =? dataLength s)
            || negb (getElementSize data =? getDataSize (trait s))) eqn:Hm.
  - apply (sort_check s data Wd) in Hm.
    rewrite (sort_mismatched s data c Wd Hm). right. left. reflexivity.
  - assert (Hok : ~ mismatched s data).
    { rewrite <- (sort_check s data Wd), Hm. discriminate. }
    rewrite (sort_as_performAll dev t L s data c W C Wd Hok).
    destruct (performAll_run (plannedOps s data) c)
      as (k & _ & _ & _ & _ & Hn).
    destruct (nth_error (plannedOps s data) k); [right; right|left]; tauto.
Qed.

Lemma sort_never_faults_witness :
  exists s,
    CudaSort_new scenarioDevice scenarioTrait 1000000 = Done s /\
    let data := newArray 1000000 8 "data" in
    let c := {| accepts := fun _ op =>
                             match op with
                             | ClearBuffer _ => false
                             | _ => true
                             end;
                requests := 0;
                stream := [] |} in
    snd (sort s data c) = Returned tt \/
    snd (sort s data c) = Thrown InvalidArgument \/
    snd (sort s data c) = Thrown DeviceExecutionFailure.
Proof.
  eexists. split; [reflexivity|].
  apply (sort_never_faults scenarioDevice scenarioTrait 1000000);
    [wf_solve | reflexivity | unfold wf_buffer, int_max; simpl; lia].
Defined.

(** X4.  [sort] asks for its planned operations in order and stops at the
    first one the backend rejects: the context's stream grows by the first
    [k] planned operations, each accepted when it was asked for; either [k]
    covers the whole plan and [sort] returns, or operation [k] was rejected,
    [sort] throws the backend's failure and nothing after it was asked for.
    No operation is retried. *)
Theorem sort_stops_at_first_rejection dev t L s data c :
  wf_inputs dev t L ->
  CudaSort_new dev t L = Done s ->
  wf_buffer data -> ~ mismatched s data ->
  exists k,
    (k <= List.length (plannedOps s data))%nat /\
    stream (fst (sort s data c))
      = stream c ++ firstn k (plannedOps s data) /\
    acceptsAll c (requests c) (firstn k (plannedOps s data)) = true /\
    match nth_error (plannedOps s data) k with
    | None => snd (sort s data c) = Returned tt
    | Some op =>
        accepts c (requests c + k) op = false /\
        snd (sort s data c) = Thrown DeviceExecutionFailure
    end.
Proof.
  intros W C Wd Hm.
  rewrite (sort_as_performAll dev t L s data c W C Wd Hm).
  destruct (performAll_run (plannedOps s data) c)
    as (k & Hk & _ & Hs & Hf & Hn).
  exists k. repeat split; assumption.
Qed.

Lemma sort_stops_at_first_rejection_witness :
  exists s,
    CudaSort_new scenarioDevice scenarioTrait 1000000 = Done s /\
    let data := newArray 1000000 8 "data" in
    let c := {| accepts := fun _ op =>
                             match op with
                             | ClearBuffer _ => false
                             | _ => true
                             end;
                requests := 0;
                stream := [] |} in
    exists k,
      (k <= List.length (plannedOps s data))%nat /\
      stream (fst (sort s data c))
        = stream c ++ firstn k (plannedOps s data) /\
      acceptsAll c (requests c) (firstn k (plannedOps s data)) = true /\
      match nth_error (plannedOps s data) k with
      | None => snd (sort s data c) = Returned tt
      | Some op =>
          accepts c (requests c + k) op = false /\
          snd (sort s data c) = Thrown DeviceExecutionFailure
      end.
Proof.
  eexists. split; [reflexivity|].
  apply (sort_stops_at_first_rejection scenarioDevice scenarioTrait 1000000);
    [wf_solve | reflexivity | unfold wf_buffer, int_max; simpl; lia |].
  unfold mismatched. simpl. lia.
Defined.

(** A run in which the backend accepts every planned operation. *)
Lemma sort_run_full dev t L s data c :
  wf_inputs dev t L ->
  CudaSort_new dev t L = Done s ->
  wf_buffer data -> ~ mismatched s data ->
  acceptsAll c (requests c) (plannedOps s data) = true ->
  stream (fst (sort s data c)) = stream c ++ plannedOps s data /\
  snd (sort s data c) = Returned tt.
Proof.
  intros W C Wd Hm Hall.
  rewrite (sort_as_performAll dev t L s data c W C Wd Hm).
  destruct (performAll_run (plannedOps s data) c)
    as (k & Hk & _ & Hs & _ & Hn).
  destruct (nth_error (plannedOps s data) k) as [op|] eqn:E.
  - exfalso. destruct Hn as (Hrej & _).
    rewrite (acceptsAll_nth c _ _ _ _ Hall E) in Hrej. discriminate Hrej.
  - apply nth_error_None in E. rewrite firstn_all2 in Hs by exact E.
    split; assumption.
Qed.

(** X5.  [sort] returns normally exactly when the buffer matches the
    configuration and the backend accepts every operation of the plan as it
    is asked for; the stream has then grown by the whole plan. *)
Theorem sort_returns_iff_accepted dev t L s data c :
  wf_inputs dev t L ->
  CudaSort_new dev t L = Done s ->
  wf_buffer data ->
  (snd (sort s data c) = Returned tt <->
   ~ mismatched s data /\
   acceptsAll c (requests c) (plannedOps s data) = true) /\
  (snd (sort s data c) = Returned tt ->
   stream (fst (sort s data c)) = stream c ++ plannedOps s data).
Proof.
  intros W C Wd.
  assert (Hfwd : snd (sort s data c) = Returned tt ->
                 ~ mismatched s data /\
                 acceptsAll c (requests c) (plannedOps s data) = true).
  { intros H.
    assert (Hm : ~ mismatched s data).
    { intros Hm. rewrite (sort_mismatched s data c Wd Hm) in H.
      discriminate H. }
    split; [exact Hm|].
    rewrite (sort_as_performAll dev t L s data c W C Wd Hm) in H.
    destruct (performAll_run (plannedOps s data) c)
      as (k & Hk & _ & _ & Hf & Hn).
    destruct (nth_error (plannedOps s data) k) as [op|] eqn:E.
    - destruct Hn as (_ & Hn). rewrite Hn in H. discriminate H.
    - apply nth_error_None in E. rewrite firstn_all2 in Hf by exact E.
      exact Hf. }
  split; [split; [exact Hfwd|] |].
  - intros (Hm & Hall).
    apply (sort_run_full dev t L s data c W C Wd Hm Hall).
  - intros H. destruct (Hfwd H) as (Hm & Hall).
    apply (sort_run_full dev t L s data c W C Wd Hm Hall).
Qed.

Lemma sort_returns_iff_accepted_witness :
  exists s,
    CudaSort_new scenarioDevice scenarioTrait 2000 = Done s /\
    let data := newArray 2000 8 "data" in
    (snd (sort s data idleContext) = Returned tt <->
     ~ mismatched s data /\
     acceptsAll idleContext (requests idleContext) (plannedOps s data)
       = true) /\
    (snd (sort s data idleContext) = Returned tt ->
     stream (fst (sort s data idleContext))
       = stream idleContext ++ plannedOps s data).
Proof.
  eexists. split; [reflexivity|].
  apply (sort_returns_iff_accepted scenarioDevice scenarioTrait 2000);
    [wf_solve | reflexivity | unfold wf_buffer, int_max; simpl; lia].
Defined.

(** ** Buckets and workspace *)

(** X7.  On the bucket path the constructor sizes the buckets so that there
    are at least two of them, [numBuckets] is the whole number of
    [targetBucketSize]-sized buckets the array fills, the mean number of
    elements per bucket stays below [sortKernelSize], and the last stage of
    [sort] never launches more thread groups than there are buckets. *)
Theorem bucket_sizing dev t L sz s :
  wf_inputs dev t L ->
  workGroupSizes dev t L = Done sz ->
  CudaSort_new dev t L = Done s ->
  isShortList s = false ->
  let tbs := targetBucketSize sz in
  let nb := numBuckets sz in
  2 <= nb /\
  nb * tbs <= L < (nb + 1) * tbs /\
  L < nb * sortKernelSize s /\
  (forall groups,
     (groups - 1) * sortKernelSize s < L <= groups * sortKernelSize s ->
     groups <= nb).
Proof.
  intros W Z C Hs tbs nb.
  destruct (CudaSort_new_inv _ _ _ _ C) as (sz' & Z' & _ & _ & _ & _ & _ & F4).
  rewrite Z in Z'. injection Z' as <-.
  destruct (workGroupSizes_inv _ _ _ _ W Z)
    as (_ & _ & _ & _ & _ & I5 & I6 & I7 & _).
  destruct (CudaSort_new_bounds dev t L s W C)
    as (_ & (Hk & Hkc) & _ & _ & _ & Hlong).
  specialize (Hlong Hs). fold tbs in I5, I6, I7. fold nb in I7.
  rewrite <- F4 in I5.
  set (k := sortKernelSize s) in *.
  set (cap := localCapacity dev t) in *. clearbody cap.
  assert (H2 : 2 * tbs <= k < 2 * tbs + 2) by (rewrite I5; div_lia).
  assert (Hlo : tbs * (L / tbs) <= L) by (apply Z.mul_div_le; lia).
  assert (Hhi : L < tbs * Z.succ (L / tbs))
    by (apply Z.mul_succ_div_gt; lia).
  assert (Hq : 2 <= L / tbs) by (apply Z.div_le_lower_bound; lia).
  assert (Enb : nb = L / tbs) by lia.
  clearbody k tbs nb. subst nb.
  repeat split; nia.
Qed.

Lemma bucket_sizing_witness :
  exists sz s,
    workGroupSizes scenarioDevice scenarioTrait 1000000 = Done sz /\
    CudaSort_new scenarioDevice scenarioTrait 1000000 = Done s /\
    let tbs := targetBucketSize sz in
    let nb := numBuckets sz in
    2 <= nb /\
    nb * tbs <= 1000000 < (nb + 1) * tbs /\
    1000000 < nb * sortKernelSize s /\
    (forall groups,
       (groups - 1) * sortKernelSize s < 1000000
         <= groups * sortKernelSize s ->
       groups <= nb).
Proof.
  do 2 eexists. split; [reflexivity|]. split; [reflexivity|].
  apply (bucket_sizing scenarioDevice scenarioTrait 1000000);
    [wf_solve | reflexivity | reflexivity | reflexivity].
Defined.

(** X8.  Length 0 is always a short list: a construction for it that
    completes allocates no workspace, clamps [rangeKernelSize] to 0 and
    [positionsKernelSize] to the single bucket, and leaves the destructor the
    trait alone to delete. *)
Theorem empty_length_construction dev t s :
  wf_inputs dev t 0 ->
  CudaSort_new dev t 0 = Done s ->
  isShortList s = true /\
  rangeKernelSize s = 0 /\ positionsKernelSize s = 1 /\
  (dataRange s = None /\ bucketOffset s = None /\ bucketOfElement s = None /\
   offsetInBucket s = None /\ buckets s = None) /\
  CudaSort_delete s = [DeletedTrait t].
Proof.
  intros W C.
  destruct (CudaSort_new_sizes dev t 0 s W C)
    as (_ & _ & Hshort & Hr & _ & Hk & Hp).
  destruct (CudaSort_new_bounds dev t 0 s W C) as ((HP & _) & _).
  destruct (localCapacity_bounds dev t) as (Hc0 & _); try apply W.
  assert (Hs : isShortList s = true).
  { rewrite Hshort. apply Z.leb_le. exact Hc0. }
  set (P := largestPow2 (maxBlockSize dev)) in *. clearbody P.
  rewrite Zdiv_0_l in Hp.
  unfold CudaSort_new in C.
  destruct (workGroupSizes dev t 0) as [sz|f]; [|discriminate].
  injection C as <-. cbn in *. rewrite Hs.
  repeat split; lia.
Qed.

Lemma empty_length_construction_witness :
  exists s,
    CudaSort_new scenarioDevice scenarioTrait 0 = Done s /\
    isShortList s = true /\
    rangeKernelSize s = 0 /\ positionsKernelSize s = 1 /\
    (dataRange s = None /\ bucketOffset s = None /\
     bucketOfElement s = None /\ offsetInBucket s = None /\
     buckets s = None) /\
    CudaSort_delete s = [DeletedTrait scenarioTrait].
Proof.
  eexists. split; [reflexivity|].
  apply (empty_length_construction scenarioDevice scenarioTrait);
    [wf_solve | reflexivity].
Defined.



(** ** Destruction *)

(** X10.  The destructor releases what the constructor acquired, once each:
    the trait and, for a scheduler that is not short-list, the five workspace
    arrays; nothing is deleted twice, and an array is deleted exactly when it
    is one of the scheduler's workspace arrays. *)
Theorem destructor_balances_constructor dev t L s :
  wf_inputs dev t L ->
  CudaSort_new dev t L = Done s ->
  List.length (CudaSort_delete s) = (if isShortList s then 1 else 6)%nat /\
  NoDup (CudaSort_delete s) /\
  In (DeletedTrait t) (CudaSort_delete s) /\
  (forall a,
     In (DeletedArray a) (CudaSort_delete s) <->
     dataRange s = Some a \/ bucketOffset s = Some a \/
     bucketOfElement s = Some a \/ offsetInBucket s = Some a \/
     buckets s = Some a).
Proof.
  intros W C.
  destruct (CudaSort_new_sizes dev t L s W C) as (Et & _).
  destruct (isShortList s) eqn:Hs.
  - unfold CudaSort_new in C.
    destruct (workGroupSizes dev t L) as [sz|f]; [|discriminate].
    injection C as <-. cbn in Hs. unfold CudaSort_delete. cbn. rewrite Hs.
    cbn. split; [reflexivity|]. split.
    + constructor; [intros []|constructor].
    + split; [left; reflexivity|].
      intros a. split.
      * intros [E|[]]. discriminate E.
      * intros [E|[E|[E|[E|E]]]]; discriminate E.
  - destruct (CudaSort_new_arrays dev t L s W C Hs)
      as (nb & _ & Edr & Ebo & Ebe & Eoi & Ebu).
    unfold CudaSort_delete. rewrite Et, Edr, Ebo, Ebe, Eoi, Ebu.
    cbn [deleteIfNotNull app]. split; [reflexivity|]. split.
    + repeat (constructor;
              [cbn [In]; intros H;
               repeat (destruct H as [H|H]; [discriminate H|]);
               exact H|]).
      constructor.
    + split; [left; reflexivity|].
      intros a. cbn [In]. split.
      * intros [E|[E|[E|[E|[E|[E|[]]]]]]]; try discriminate E;
          injection E as <-; auto.
      * intros [E|[E|[E|[E|E]]]]; injection E as <-; auto 7.
Qed.

Lemma destructor_balances_constructor_witness :
  exists s,
    CudaSort_new scenarioDevice scenarioTrait 1000000 = Done s /\
    List.length (CudaSort_delete s) = (if isShortList s then 1 else 6)%nat /\
    NoDup (CudaSort_delete s) /\
    In (DeletedTrait scenarioTrait) (CudaSort_delete s) /\
    (forall a,
       In (DeletedArray a) (CudaSort_delete s) <->
       dataRange s = Some a \/ bucketOffset s = Some a \/
       bucketOfElement s = Some a \/ offsetInBucket s = Some a \/
       buckets s = Some a).
Proof.
  eexists. split; [reflexivity|].
  apply (destructor_balances_constructor scenarioDevice scenarioTrait 1000000);
    [wf_solve | reflexivity].
Defined.

(** ** What the launches carry *)

Lemma plannedOps_cases dev t L s data :
  wf_inputs dev t L ->
  CudaSort_new dev t L = Done s ->
  plannedOps s data = [] \/
  (getSize data <> 0 /\ isShortList s = true /\
   plannedOps s data = shortListOps s data) \/
  (getSize data <> 0 /\ isShortList s = false /\
   exists nb,
     (nb = Z.max 1 (L / (sortKernelSize s / 2)) /\ 1 <= nb <= Z.max 1 L) /\
     plannedOps s data
     = bucketOps s data
         (newArray 2 (getKeySize t) "sortDataRange")
         (newArray (to_int nb) sizeof_uint1 "bucketOffset")
         (newArray (to_int L) sizeof_uint1 "bucketOfElement")
         (newArray (to_int L) sizeof_uint1 "offsetInBucket")
         (newArray (to_int L) (getDataSize t) "buckets")).
Proof.
  intros W C. unfold plannedOps.
  destruct (Z.eqb_spec (getSize data) 0) as [E|Hnz]; [left; reflexivity|].
  right. destruct (isShortList s) eqn:Hs.
  - left. repeat split; assumption.
  - right. destruct (CudaSort_new_arrays dev t L s W C Hs)
      as (nb & Hnb & -> & -> & -> & -> & ->).
    repeat split; try assumption. exists nb. split; [exact Hnb | reflexivity].
Qed.

(** X11.  Every launch that names its threads per group names at least 1 and
    at most the device's block size: [sort] never asks for an empty or an
    oversized thread group. *)
Theorem launches_within_block_size dev t L s data :
  wf_inputs dev t L ->
  CudaSort_new dev t L = Done s ->
  wf_buffer data -> ~ mismatched s data ->
  forall op b,
    In op (plannedOps s data) -> blockSizeOf op = Some b ->
    1 <= b <= maxBlockSize dev.
Proof.
  intros W C Wd Hm op b Hin Hb.
  destruct (CudaSort_new_sizes dev t L s W C) as (_ & EL & _).
  destruct (CudaSort_new_bounds dev t L s W C)
    as ((_ & HPm) & (Hk & _) & _ & Hp & _).
  destruct (CudaSort_new_sizes dev t L s W C) as (_ & _ & _ & Hr & _).
  assert (Esz : getSize data = L).
  { unfold mismatched in Hm. rewrite EL in Hm. lia. }
  assert (HL0 : 0 <= L) by (destruct W as (_ & _ & (H0 & _)); exact H0).
  set (P := largestPow2 (maxBlockSize dev)) in *. clearbody P.
  destruct (plannedOps_cases dev t L s data W C)
    as [E|[(Hnz & _ & E)|(Hnz & _ & nb & _ & E)]];
    rewrite E in Hin.
  - destruct Hin.
  - destruct Hin as [<-|[]]. cbn in Hb. injection Hb as <-. div_lia.
  - unfold bucketOps in Hin. cbv zeta in Hin.
    repeat (destruct Hin as [<-|Hin];
            [cbn in Hb; first [discriminate Hb | injection Hb as <-]|]);
      try contradiction; div_lia.
Qed.

Lemma launches_within_block_size_witness :
  exists s,
    CudaSort_new scenarioDevice scenarioTrait 1000000 = Done s /\
    let data := newArray 1000000 8 "data" in
    forall op b,
      In op (plannedOps s data) -> blockSizeOf op = Some b ->
      1 <= b <= 1024.
Proof.
  eexists. split; [reflexivity|].
  apply (launches_within_block_size scenarioDevice scenarioTrait 1000000);
    [wf_solve | reflexivity | unfold wf_buffer, int_max; simpl; lia |].
  unfold mismatched. simpl. lia.
Defined.


